(** * Consonant helpers: dates, event banners, transitions and pagination

    A shallow embedding of the helpers of
    [react/src/js/components/Consonant/Helpers/general.js]: the date-interval
    helpers, the banner classifier, the clock and the transition scheduler,
    and with them the list, set, sorting and pagination helpers, the
    templates, and the helpers that read, write, map and merge objects;
    then the properties the specification states about them and further
    properties that the code shows.

    The file has four parts: the JavaScript values and built-ins the helpers
    call ([JS]), the priority queue they fill ([MinPriorityQueue]), the
    helpers themselves, transcribed function by function, and the theorems. *)

From Stdlib Require Import ZArith List String Ascii Bool Lia DecimalString.
From Stdlib Require Import Sorting.Sorted Sorting.Permutation.
Import ListNotations.

Local Open Scope Z_scope.

(** ** Results of computations that may throw *)

Inductive result (A : Type) : Type :=
| Ok (a : A)
| Throw (msg : string).

Arguments Ok {A} a.
Arguments Throw {A} msg.

Definition bind {A B : Type} (r : result A) (k : A -> result B) : result B :=
  match r with
  | Ok a => k a
  | Throw msg => Throw msg
  end.

Declare Scope result_scope.
Delimit Scope result_scope with result.
Notation "x <- r ;; k" := (bind r (fun x => k))
  (at level 61, r at next level, right associativity) : result_scope.

(** ** JavaScript numbers, values and the built-ins the helpers use *)

Module JS.

(** A Number as the helpers meet it: a time value or a difference of time
    values, always an integer number of milliseconds, or [NaN].  Integers
    of magnitude below 2^53 are exact in a double, and so is their
    arithmetic here. *)
Inductive num : Type :=
| NaN
| Fin (z : Z).

Definition nadd (a b : num) : num :=
  match a, b with
  | Fin x, Fin y => Fin (x + y)
  | _, _ => NaN
  end.

Definition nsub (a b : num) : num :=
  match a, b with
  | Fin x, Fin y => Fin (x - y)
  | _, _ => NaN
  end.

(** The relational operators: every comparison with [NaN] is false. *)
Definition nlt (a b : num) : bool :=
  match a, b with
  | Fin x, Fin y => x <? y
  | _, _ => false
  end.

Definition nle (a b : num) : bool :=
  match a, b with
  | Fin x, Fin y => x <=? y
  | _, _ => false
  end.

Definition ngt (a b : num) : bool := nlt b a.
Definition nge (a b : num) : bool := nle b a.

(** ToBoolean on a Number: [0] and [NaN] are falsy. *)
Definition truthy_num (a : num) : bool :=
  match a with
  | NaN => false
  | Fin z => negb (z =? 0)
  end.

(** The values a date field or a date argument holds: absent
    ([undefined]), [null], a boolean, a number, a string or a [Date]
    object (given by its time value). *)
Inductive value : Type :=
| JUndefined
| JNull
| JBool (b : bool)
| JNum (n : num)
| JStr (s : string)
| JDate (t : num).

(** ToBoolean: objects are truthy, the empty string is falsy. *)
Definition truthy (v : value) : bool :=
  match v with
  | JUndefined | JNull => false
  | JBool b => b
  | JNum n => truthy_num n
  | JStr s => negb (String.eqb s "")
  | JDate _ => true
  end.

(** [TimeClip]: a time value is an integer of magnitude at most
    8.64e15 ms. *)
Definition maxTime : Z := 8640000000000000.

Definition timeClip (n : num) : num :=
  match n with
  | NaN => NaN
  | Fin z => if Z.abs z <=? maxTime then Fin z else NaN
  end.

(** [new Date(n)]. *)
Definition newDate (n : num) : value := JDate (timeClip n).

(** ToNumber on a [Date] is its time value; the other cases are the ones
    of the language ([undefined] is [NaN], [null] is [0]); a string
    operand does not occur in the helpers modelled here. *)
Definition valueOf (v : value) : num :=
  match v with
  | JDate t => t
  | JNum n => n
  | JNull => Fin 0
  | JBool b => Fin (if b then 1 else 0)
  | JUndefined | JStr _ => NaN
  end.

(** *** Reading decimal digits *)

Definition digit (c : ascii) : option Z :=
  let n := nat_of_ascii c in
  if (48 <=? n)%nat && (n <=? 57)%nat then Some (Z.of_nat (n - 48)) else None.

(** Exactly [k] digits at the head of [s], and the rest. *)
Fixpoint digits (k : nat) (acc : Z) (s : string) : option (Z * string) :=
  match k with
  | O => Some (acc, s)
  | S k' =>
      match s with
      | String c r =>
          match digit c with
          | Some d => digits k' (10 * acc + d) r
          | None => None
          end
      | EmptyString => None
      end
  end.

(** The longest run of digits at the head of [s]: how many, and their
    value. *)
Fixpoint digitRun (acc : Z) (count : nat) (s : string) : Z * nat :=
  match s with
  | String c r =>
      match digit c with
      | Some d => digitRun (10 * acc + d) (S count) r
      | None => (acc, count)
      end
  | EmptyString => (acc, count)
  end.

Definition expect (c : ascii) (s : string) : option string :=
  match s with
  | String c' r => if Ascii.eqb c c' then Some r else None
  | EmptyString => None
  end.

(** *** ToString *)

Definition numToString (n : num) : string :=
  match n with
  | NaN => "NaN"
  | Fin z => NilZero.string_of_int (Z.to_int z)
  end.

(** The text of a valid [Date] (weekday, month name, local time and zone)
    is not written out: [Date_parse] below reads a valid [Date] directly;
    an invalid one prints as ["Invalid Date"]. *)
Definition toString (v : value) : string :=
  match v with
  | JUndefined => "undefined"
  | JNull => "null"
  | JBool b => if b then "true" else "false"
  | JNum n => numToString n
  | JStr s => s
  | JDate _ => "Invalid Date"
  end.

(** *** The Date Time String Format

    [YYYY-MM-DDTHH:mm:ss.sssZ] and its shorter forms.  ECMAScript fixes
    the meaning of the date-only forms [YYYY], [YYYY-MM] and [YYYY-MM-DD]
    (read as UTC), of the extended years [+YYYYYY] and [-YYYYYY], and of the
    date-time forms that carry an offset ([Z], [+HH:mm], [-HH:mm]).  Any
    other string (a time without offset, which is local time; a day the
    month does not have; [24:00]; text in another format) is left to the
    host. *)

Definition obind {A B : Type} (o : option A) (k : A -> option B) : option B :=
  match o with
  | Some a => k a
  | None => None
  end.

Notation "' p <-? o ;; k" := (obind o (fun p => k))
  (at level 61, p pattern, o at next level, right associativity).

Definition guard (b : bool) : option unit := if b then Some tt else None.

Definition msPerDay : Z := 86400000.

Definition dayFromYear (y : Z) : Z :=
  365 * (y - 1970) + (y - 1969) / 4 - (y - 1901) / 100 + (y - 1601) / 400.

Definition isLeapYear (y : Z) : bool :=
  (y mod 4 =? 0) && (negb (y mod 100 =? 0) || (y mod 400 =? 0)).

Definition daysInMonth (y m : Z) : Z :=
  if m =? 2 then (if isLeapYear y then 29 else 28)
  else if (m =? 4) || (m =? 6) || (m =? 9) || (m =? 11) then 30
  else 31.

(** Days of year [y] before the first of month [m] (1 to 12). *)
Definition daysBeforeMonth (y m : Z) : Z :=
  fold_right (fun k acc => daysInMonth y (Z.of_nat k) + acc) 0
             (seq 1 (Z.to_nat (m - 1))).

Definition makeDay (y m d : Z) : Z :=
  dayFromYear y + daysBeforeMonth y m + (d - 1).

Definition makeTime (h mi s ms : Z) : Z :=
  h * 3600000 + mi * 60000 + s * 1000 + ms.

Definition parseYear (s : string) : option (Z * string) :=
  match s with
  | String "+" r => digits 6 0 r
  | String "-" r =>
      '(y, r') <-? digits 6 0 r ;;
      '_ <-? guard (negb (y =? 0)) ;;
      Some (- y, r')
  | _ => digits 4 0 s
  end.

(** A field [cNN] that may be left out, with its default. *)
Definition optField (c : ascii) (dflt : Z) (s : string) : option (Z * string) :=
  match expect c s with
  | None => Some (dflt, s)
  | Some r => digits 2 0 r
  end.

Definition parseDateFields (s : string) : option (Z * Z * Z * string) :=
  '(y, r) <-? parseYear s ;;
  match expect "-" r with
  | None => Some (y, 1, 1, r)
  | Some r1 =>
      '(m, r2) <-? digits 2 0 r1 ;;
      '(d, r3) <-? optField "-" 1 r2 ;;
      Some (y, m, d, r3)
  end.

(** [.sss], which may be left out. *)
Definition parseMillis (s : string) : option (Z * string) :=
  match expect "." s with
  | None => Some (0, s)
  | Some r => digits 3 0 r
  end.

(** The offset of a date-time form, in minutes east of UTC; the string
    ends with it. *)
Definition parseOffset (s : string) : option Z :=
  match s with
  | String "Z" EmptyString => Some 0
  | String sign r =>
      '(h, r1) <-? digits 2 0 r ;;
      'r2 <-? expect ":" r1 ;;
      '(mi, r3) <-? digits 2 0 r2 ;;
      '_ <-? guard ((h <=? 23) && (mi <=? 59) && String.eqb r3 "") ;;
      if Ascii.eqb sign "+" then Some (h * 60 + mi)
      else if Ascii.eqb sign "-" then Some (- (h * 60 + mi))
      else None
  | EmptyString => None
  end.

(** [HH:mm], [HH:mm:ss] or [HH:mm:ss.sss] followed by an offset: the
    milliseconds to add to the start of the UTC day. *)
Definition parseTimeFields (s : string) : option Z :=
  '(h, r1) <-? digits 2 0 s ;;
  'r2 <-? expect ":" r1 ;;
  '(mi, r3) <-? digits 2 0 r2 ;;
  '(sec, ms, r4) <-? match expect ":" r3 with
                     | None => Some (0, 0, r3)
                     | Some r =>
                         '(sec, r') <-? digits 2 0 r ;;
                         '(ms, r'') <-? parseMillis r' ;;
                         Some (sec, ms, r'')
                     end ;;
  '_ <-? guard ((h <=? 23) && (mi <=? 59) && (sec <=? 59)) ;;
  'off <-? parseOffset r4 ;;
  Some (makeTime h mi sec ms - off * 60000).

Definition isoParse (s : string) : option Z :=
  '(y, m, d, r) <-? parseDateFields s ;;
  '_ <-? guard ((1 <=? m) && (m <=? 12) && (1 <=? d) && (d <=? daysInMonth y m)) ;;
  match r with
  | EmptyString => Some (makeDay y m d * msPerDay)
  | String "T" r' =>
      't <-? parseTimeFields r' ;;
      Some (makeDay y m d * msPerDay + t)
  | _ => None
  end.

(** *** Date.parse

    The host is the part of [Date.parse] that ECMAScript leaves to the
    implementation: what it makes of a string outside the format above. *)
Record Host : Type := mkHost { legacy_parse : string -> num }.

(** A host that recognises nothing but the format. *)
Definition strictHost : Host := {| legacy_parse := fun _ => NaN |}.

Definition parseString (h : Host) (s : string) : num :=
  timeClip match isoParse s with
           | Some t => Fin t
           | None => legacy_parse h s
           end.

(** [Date.parse(v)] converts its argument to a string and parses it.  The
    string of a valid [Date] has no milliseconds, and parsing it gives back
    the time value of the start of its second. *)
Definition Date_parse (h : Host) (v : value) : num :=
  match v with
  | JDate (Fin t) => timeClip (Fin (1000 * (t / 1000)))
  | _ => parseString h (toString v)
  end.

(** *** parseInt(string, 10) *)

Definition isWhiteSpace (c : ascii) : bool :=
  let n := nat_of_ascii c in
  ((9 <=? n)%nat && (n <=? 13)%nat) || (n =? 32)%nat.

Fixpoint trimStart (s : string) : string :=
  match s with
  | String c r => if isWhiteSpace c then trimStart r else s
  | EmptyString => EmptyString
  end.

Definition parseInt10 (s : string) : num :=
  let s1 := trimStart s in
  let '(negative, s2) :=
    match s1 with
    | String "-" r => (true, r)
    | String "+" r => (false, r)
    | _ => (false, s1)
    end in
  match digitRun 0 0 s2 with
  | (_, O) => NaN
  | (z, S _) => Fin (if negative then - z else z)
  end.

Definition parseInt (v : value) : num := parseInt10 (toString v).

(** *** URLSearchParams

    The decoded name and value pairs of [window.location.search], in
    order; [get] answers the first value under a name, or [null]. *)
Definition URLSearchParams : Type := list (string * string).

Fixpoint URLSearchParams_get (params : URLSearchParams) (name : string) : value :=
  match params with
  | [] => JNull
  | (k, v) :: rest =>
      if String.eqb k name then JStr v else URLSearchParams_get rest name
  end.

End JS.

Import JS.

(** ** Numbers of the page arithmetic

    The arguments of the pagination helpers are Numbers without a bound of
    their own, so their arithmetic is the one of doubles: the result of an
    operation is the double nearest to the exact result, the even one of two
    that are equally near, and an infinity from 2^1024 on.  [Int z] is a
    Number when [z] is a double ([nearest z = Int z]); the two zeros, which
    [===] and the arithmetic of the helpers do not tell apart, are both
    [Int 0].  A Number that is not an integer is outside this type. *)

Module Number.

Inductive t : Type :=
| NaN
| Infinity (negative : bool)
| Int (z : Z).

(** The double nearest to the integer [z]: a significand of 53 bits. *)
Definition nearest (z : Z) : t :=
  let a := Z.abs z in
  let e := Z.log2 a - 52 in
  if e <=? 0 then Int z
  else
    let q := a / 2 ^ e in
    let r := a mod 2 ^ e in
    let q' := if 2 * r <? 2 ^ e then q
              else if 2 ^ e <? 2 * r then q + 1
              else if Z.even q then q else q + 1 in
    if 2 ^ 1024 <=? q' * 2 ^ e then Infinity (z <? 0)
    else Int (Z.sgn z * (q' * 2 ^ e)).

Definition mul (a b : t) : t :=
  match a, b with
  | NaN, _ | _, NaN => NaN
  | Infinity n, Infinity n' => Infinity (xorb n n')
  | Infinity n, Int z | Int z, Infinity n =>
      if z =? 0 then NaN else Infinity (xorb n (z <? 0))
  | Int x, Int y => nearest (x * y)
  end.

Definition sub (a b : t) : t :=
  match a, b with
  | NaN, _ | _, NaN => NaN
  | Infinity n, Infinity n' => if Bool.eqb n n' then NaN else Infinity n
  | Infinity n, Int _ => Infinity n
  | Int _, Infinity n => Infinity (negb n)
  | Int x, Int y => nearest (x - y)
  end.

(** [a === b] on Numbers: [NaN] equals nothing. *)
Definition strictEq (a b : t) : bool :=
  match a, b with
  | Infinity n, Infinity n' => Bool.eqb n n'
  | Int x, Int y => x =? y
  | _, _ => false
  end.

(** The integers up to 2^53 in magnitude are doubles, and a result among
    them is not rounded. *)
Definition exact (z : Z) : Prop := Z.abs z <= 2 ^ 53.

End Number.

(** ** The priority queue *)

Module MinPriorityQueue.

Section Queue.

Variable E : Type.

Record entry : Type := mkEntry { priority : Z; element : E }.

(** Modelled from the spec: the queue class [MinPriorityQueue] of the
    package [@datastructures-js/priority-queue], which the helpers import
    and whose code is not part of the repository.  The specification asks
    of it an ascending pop order, ties in insertion order, and no
    operation besides enqueue and pop-minimum; the entries are kept here
    in that pop order. *)
Definition t : Type := list entry.

Definition empty : t := [].

(** Modelled from the spec: the place of a new entry is behind every
    entry whose priority is not larger. *)
Fixpoint insert (e : entry) (q : t) : t :=
  match q with
  | [] => [e]
  | e' :: q' =>
      if priority e' <=? priority e then e' :: insert e q' else e :: q
  end.

(** Modelled from the spec: [enqueue(element, priority)].  The package
    checks that the priority is a number and throws when it is [NaN]. *)
Definition enqueue (el : E) (p : num) (q : t) : result t :=
  match p with
  | NaN => Throw ".enqueue expects a numeric priority"
  | Fin z => Ok (insert (mkEntry z el) q)
  end.

(** Modelled from the spec: [dequeue()], pop-minimum. *)
Definition dequeue (q : t) : option (entry * t) :=
  match q with
  | [] => None
  | e :: q' => Some (e, q')
  end.

Definition size (q : t) : nat := List.length q.

(** Popping until the queue is empty; [fuel] bounds the number of
    pops. *)
Fixpoint popAll (fuel : nat) (q : t) : list entry :=
  match fuel with
  | O => []
  | S fuel' =>
      match dequeue q with
      | None => []
      | Some (e, q') => e :: popAll fuel' q'
      end
  end.

Definition drain (q : t) : list entry := popAll (size q) q.

(** The queue invariant: priorities in pop order never decrease. *)
Definition ascending (q : t) : Prop :=
  StronglySorted Z.le (map priority q).

End Queue.

Arguments mkEntry {E} priority element.
Arguments priority {E} e.
Arguments element {E} e.
Arguments empty {E}.
Arguments insert {E} e q.
Arguments enqueue {E} el p q.
Arguments dequeue {E} q.
Arguments size {E} q.
Arguments popAll {E} fuel q.
Arguments drain {E} q.
Arguments ascending {E} q.

End MinPriorityQueue.

Module PQ := MinPriorityQueue.

Local Open Scope result_scope.

(** ** The helpers of [general.js] *)

(** What the helpers read from their surroundings: the host's date parser,
    the query string of the page, the module variable [differential] and
    the wall clock that [new Date()] reads. *)
Record Env : Type := mkEnv {
  host : Host;
  search : URLSearchParams;
  differential : Z;
  wallClock : Z
}.

(** A card, as far as the helpers look at it. *)
Record card : Type := mkCard {
  id : string;
  startDate : value;
  endDate : value
}.

(** The three banners of an event card; a key the caller left out holds
    whatever [B] has for [undefined]. *)
Record BannerMap (B : Type) : Type := mkBannerMap {
  live : B;
  upcoming : B;
  onDemand : B
}.

Arguments mkBannerMap {B} live upcoming onDemand.
Arguments live {B} b.
Arguments upcoming {B} b.
Arguments onDemand {B} b.

(** The page number and the number of items per page are integers. *)
Definition getStartNumber (currentPageNumber showItemsPerPage : Z) : Z :=
  if currentPageNumber =? 1 then 1
  else (currentPageNumber * showItemsPerPage) - (showItemsPerPage - 1).

(** The formula without the special case, as the claim words it. *)
Definition startNumberFormula (currentPageNumber showItemsPerPage : Z) : Z :=
  currentPageNumber * showItemsPerPage - (showItemsPerPage - 1).

(** [getStartNumber] on the Numbers it is called with, and the formula
    without the special case computed in the same arithmetic. *)
Definition getStartNumber_onNumbers (currentPageNumber showItemsPerPage : Number.t)
    : Number.t :=
  if Number.strictEq currentPageNumber (Number.Int 1) then Number.Int 1
  else Number.sub (Number.mul currentPageNumber showItemsPerPage)
                  (Number.sub showItemsPerPage (Number.Int 1)).

Definition startNumberFormula_onNumbers (currentPageNumber showItemsPerPage : Number.t)
    : Number.t :=
  Number.sub (Number.mul currentPageNumber showItemsPerPage)
             (Number.sub showItemsPerPage (Number.Int 1)).

Definition isDateWithinInterval (h : Host) (currentDate startDate endDate : value) : bool :=
  let curr := Date_parse h currentDate in
  let start := Date_parse h startDate in
  let end_ := Date_parse h endDate in
  nle start curr && nge end_ curr.

Definition isDateBeforeInterval (h : Host) (currentDate startDate : value) : bool :=
  let curr := Date_parse h currentDate in
  let start := Date_parse h startDate in
  nlt curr start.

(** [setInterval(incrementDifferential, 1000)]: one tick of the timer. *)
Definition incrementDifferential (env : Env) : Env :=
  mkEnv (host env) (search env) (differential env + 1000) (wallClock env).

Definition getCurrentDate (env : Env) : value :=
  let urlParams := search env in
  let servertime := parseInt (URLSearchParams_get urlParams "servertime") in
  let currDate :=
    if truthy_num servertime
    then newDate (nadd servertime (Fin (differential env)))
    else JDate (Fin (wallClock env)) in
  currDate.

Definition getEventBanner {B : Type} (env : Env) (startDate endDate : value)
    (bannerMap : BannerMap B) : B :=
  let currDate := getCurrentDate env in
  if isDateWithinInterval (host env) currDate startDate endDate then live bannerMap
  else if isDateBeforeInterval (host env) currDate startDate then upcoming bannerMap
  else onDemand bannerMap.

(** The classification as the specification words it, on a current time
    [now] taken as it is. *)
Definition classifyBanner {B : Type} (h : Host) (now : num) (startDate endDate : value)
    (bannerMap : BannerMap B) : B :=
  if nle (Date_parse h startDate) now && nle now (Date_parse h endDate)
  then live bannerMap
  else if nlt now (Date_parse h startDate) then upcoming bannerMap
  else onDemand bannerMap.

(** The start of the second of a time value: what [Date.parse] reads back
    from the text of a [Date]. *)
Definition startOfSecond (t : Z) : Z := 1000 * (t / 1000).

(** The queue of [getTransitions]: a start event carries its card, an end
    event carries [null]. *)
Definition transitions : Type := PQ.t (option card).

(** The body of the loop of [getTransitions], for the card at index [i]. *)
Definition transitionStep (h : Host) (currentDate : value) (c : card)
    (q : transitions) : result transitions :=
  let priority := nsub (Date_parse h (startDate c)) (valueOf currentDate) in
  q1 <- (if truthy_num priority && ngt priority (Fin 0)
         then PQ.enqueue (Some c) priority q
         else Ok q) ;;
  let endPriority :=
    Date_parse h (JNum (nsub (Date_parse h (endDate c)) (valueOf currentDate))) in
  if truthy (endDate c) && ngt endPriority (Fin 0)
  then PQ.enqueue None endPriority q1
  else Ok q1.

(** The loop [for (let i = 0; i < cards.length; i++)]. *)
Fixpoint transitionLoop (h : Host) (currentDate : value) (cards : list card)
    (q : transitions) : result transitions :=
  match cards with
  | [] => Ok q
  | c :: rest =>
      q' <- transitionStep h currentDate c q ;;
      transitionLoop h currentDate rest q'
  end.

Definition getTransitions (env : Env) (cardsPtr : list card) : result transitions :=
  let cards := cardsPtr in
  let currentDate := getCurrentDate env in
  let transitions := PQ.empty in
  transitionLoop (host env) currentDate cards transitions.

(** *** The calls of [enqueue] that [getTransitions] makes

    The same loop read as the list of its calls, in order: each card gives
    at most a start event and then at most an end event. *)

Definition startPriority (h : Host) (currentDate : value) (c : card) : num :=
  nsub (Date_parse h (startDate c)) (valueOf currentDate).

Definition endPriority (h : Host) (currentDate : value) (c : card) : num :=
  Date_parse h (JNum (nsub (Date_parse h (endDate c)) (valueOf currentDate))).

Definition cardEvents (h : Host) (currentDate : value) (c : card)
    : list (option card * num) :=
  (if truthy_num (startPriority h currentDate c)
      && ngt (startPriority h currentDate c) (Fin 0)
   then [(Some c, startPriority h currentDate c)] else [])
  ++
  (if truthy (endDate c) && ngt (endPriority h currentDate c) (Fin 0)
   then [(None, endPriority h currentDate c)] else []).

Definition enqueueCalls (h : Host) (currentDate : value) (cards : list card)
    : list (option card * num) :=
  flat_map (cardEvents h currentDate) cards.

Fixpoint enqueueAll (calls : list (option card * num)) (q : transitions)
    : result transitions :=
  match calls with
  | [] => Ok q
  | (el, p) :: rest =>
      q' <- PQ.enqueue el p q ;;
      enqueueAll rest q'
  end.

(** A call of [enqueue] with a positive number for its priority. *)
Definition positiveCall (call : option card * num) : Prop :=
  exists z, snd call = Fin z /\ 0 < z.

(** The entries that a list of calls leaves in the queue. *)
Definition callEntries (calls : list (option card * num))
    : list (PQ.entry (option card)) :=
  flat_map (fun call =>
              match snd call with
              | Fin z => [PQ.mkEntry z (fst call)]
              | NaN => []
              end) calls.

(** An end event carries no item. *)
Definition isEndEvent (e : PQ.entry (option card)) : bool :=
  match PQ.element e with
  | None => true
  | Some _ => false
  end.

(** The test of the end-date branch of the loop. *)
Definition endEventDue (h : Host) (currentDate : value) (c : card) : bool :=
  truthy (endDate c)
  && ngt (Date_parse h (JNum (nsub (Date_parse h (endDate c)) (valueOf currentDate))))
         (Fin 0).

(** *** The example of the specification

    The current time is 1000: the page was opened with [servertime=1000]
    and the timer has not ticked yet. *)
Definition envAt1000 (h : Host) : Env :=
  mkEnv h [("servertime", "1000")%string] 0 1633986000000.

(** The item [{startDate: 2000, endDate: 5000}], its dates numbers. *)
Definition numericCard : card :=
  mkCard "card" (JNum (Fin 2000)) (JNum (Fin 5000)).

(** The same item with its dates the date strings of the instants 2000 ms
    and 5000 ms. *)
Definition isoCard : card :=
  mkCard "card" (JStr "1970-01-01T00:00:02.000Z") (JStr "1970-01-01T00:00:05.000Z").

(** The claim of the example: the queue holds one event, of priority [p]. *)
Definition oneEventOfPriority (r : result transitions) (p : Z) : Prop :=
  exists e, r = Ok [e] /\ PQ.priority e = p.

(** A banner map and a start date that is no date, for the examples. *)
Definition exampleBanners : BannerMap string :=
  mkBannerMap "Live"%string "Upcoming"%string "On Demand"%string.

Definition malformedDate : value := JStr "next tuesday".

(** The current time is 5999: the page was opened with [servertime=5999];
    and the date strings of the instants 1000 ms and 5000 ms. *)
Definition envAt5999 (h : Host) : Env :=
  mkEnv h [("servertime", "5999")%string] 0 1633986000000.

Definition secondOne : value := JStr "1970-01-01T00:00:01.000Z".
Definition secondFive : value := JStr "1970-01-01T00:00:05.000Z".

(** ** The list, set and pagination helpers of [general.js] *)

(** [Array.prototype.slice(start, end)] with integer arguments: a negative
    argument counts from the end of the array. *)
Definition slice {A : Type} (l : list A) (start end_ : Z) : list A :=
  let len := Z.of_nat (List.length l) in
  let k := if start <? 0 then Z.max (len + start) 0 else Z.min start len in
  let final := if end_ <? 0 then Z.max (len + end_) 0 else Z.min end_ len in
  firstn (Z.to_nat (final - k)) (skipn (Z.to_nat k) l).

(** [String.prototype.slice(0, end)], the one use the helpers make of it. *)
Definition String_slice0 (s : string) (end_ : Z) : string :=
  let len := Z.of_nat (String.length s) in
  let final := if end_ <? 0 then Z.max (len + end_) 0 else Z.min end_ len in
  substring 0 (Z.to_nat final) s.

Definition truncateString (str : string) (num : Z) : string :=
  if Z.of_nat (String.length str) <=? num then str
  else (String_slice0 str num ++ "...")%string.

Definition truncateList {A : Type} (limit : Z) (list : Datatypes.list A)
    : Datatypes.list A :=
  if limit <? 0 then list
  else slice list 0 limit.

(** [args.reduce((a, b) => a.concat(b), [])] over arrays. *)
Definition chain {A : Type} (args : list (list A)) : list A :=
  fold_left (fun a b => a ++ b) args [].

Definition chainFromIterable {A : Type} (args : list (list A)) : list A :=
  chain args.

(** *** Sets

    A [Set] holds its elements once each, in the order they were added;
    [K_eq_dec] decides the equality the [Set] compares its elements with. *)
Section Sets.

Context {K : Type}.
Variable K_eq_dec : forall x y : K, {x = y} + {x <> y}.

Definition JSSet : Type := list K.

Definition Set_has (s : JSSet) (k : K) : bool :=
  if in_dec K_eq_dec k s then true else false.

Definition Set_add (s : JSSet) (k : K) : JSSet :=
  if Set_has s k then s else s ++ [k].

(** [new Set(iterable)]. *)
Definition Set_of (l : list K) : JSSet := fold_left Set_add l [].

(** The loop [list.forEach] of [removeDuplicatesByKey], on the pair of
    [newList] and [ids]; [key item] stands for [item[key]]. *)
Definition removeDuplicatesStep {A : Type} (key : A -> K)
    (st : list A * JSSet) (item : A) : list A * JSSet :=
  let '(newList, ids) := st in
  if negb (Set_has ids (key item))
  then (newList ++ [item], Set_add ids (key item))
  else (newList, ids).

Definition removeDuplicatesByKey {A : Type} (list : Datatypes.list A)
    (key : A -> K) : Datatypes.list A :=
  fst (fold_left (removeDuplicatesStep key) list ([], [])).

(** What [removeDuplicatesByKey] keeps of a list once the keys [seen] have
    been met: the meaning of its loop, used to state what the loop does. *)
Fixpoint keptAfter {A : Type} (key : A -> K) (seen : JSSet)
    (list : Datatypes.list A) : Datatypes.list A :=
  match list with
  | [] => []
  | item :: rest =>
      if Set_has seen (key item) then keptAfter key seen rest
      else item :: keptAfter key (seen ++ [key item]) rest
  end.

(** The loop [for (const elem of subset)] with its early [return false]. *)
Fixpoint isSuperset_loop (superset : JSSet) (elems : list K) : bool :=
  match elems with
  | [] => true
  | elem :: rest =>
      if negb (Set_has superset elem) then false
      else isSuperset_loop superset rest
  end.

Definition isSuperset (superset subset : JSSet) : bool :=
  isSuperset_loop superset subset.

Definition intersection (setA setB : JSSet) : JSSet :=
  fold_left (fun intersectionSet elem =>
               if Set_has setA elem then Set_add intersectionSet elem
               else intersectionSet)
            setB [].

End Sets.

(** *** Filters *)

Record filterItem : Type := mkFilterItem {
  label : string;
  selected : value
}.

Record filterGroup : Type := mkFilterGroup {
  group : string;
  items : list filterItem
}.

Definition isAtleastOneFilterSelected (filters : list filterGroup) : bool :=
  existsb (fun item => truthy (selected item))
          (chainFromIterable (map (fun f => items f) filters)).

Definition getSelectedItemsCount (items : list filterItem) : nat :=
  List.length (filter (fun item => truthy (selected item)) items).

(** *** Ranges and pages *)



Definition getPageStartEnd (currentPageNumber pageCount totalPages : Z) : Z * Z :=
  let halfPageCount := pageCount / 2 in
  if totalPages <=? pageCount + 1
  then (1, totalPages)
  else
    (Z.min (Z.max 1 (currentPageNumber - halfPageCount)) (totalPages - pageCount),
     Z.max (Z.min (currentPageNumber + halfPageCount) totalPages) (pageCount + 1)).


(** *** The clock and the double parse *)

(** The environment after [n] ticks of the timer. *)
Definition afterTicks (n : nat) (env : Env) : Env :=
  Nat.iter n incrementDifferential env.

(** Whether [Date.parse] reads the integer [y] as the first instant of
    the year [y]. *)
Definition yearParses (y : Z) : bool :=
  match Date_parse strictHost (JNum (Fin y)) with
  | Fin t => t =? dayFromYear y * msPerDay
  | NaN => false
  end.

(** The same for each of the [count] integers from [lo] on. *)
Fixpoint yearsParseFrom (lo : Z) (count : nat) : bool :=
  match count with
  | O => true
  | S count' => yearParses lo && yearsParseFrom (lo + 1) count'
  end.

(** ** Objects and paths *)

(** The values an authored configuration holds: the primitives, arrays and
    plain objects.  An object is the list of its own properties, in the
    order [Object.keys] lists them; its prototype is [Object.prototype]. *)
Unset Elimination Schemes.
Inductive jv : Type :=
| VUndefined
| VNull
| VBool (b : bool)
| VNum (n : num)
| VStr (s : string)
| VArr (elems : list jv)
| VObj (props : list (string * jv)).
Set Elimination Schemes.

(** ToBoolean. *)
Definition truthy_jv (v : jv) : bool :=
  match v with
  | VUndefined | VNull => false
  | VBool b => b
  | VNum n => truthy_num n
  | VStr s => negb (String.eqb s "")
  | VArr _ | VObj _ => true
  end.

(** [v != null]. *)
Definition notNull (v : jv) : bool :=
  match v with
  | VUndefined | VNull => false
  | _ => true
  end.

(** The own properties of a plain object. *)
Fixpoint obj_get (props : list (string * jv)) (key : string) : option jv :=
  match props with
  | [] => None
  | (k, v) :: rest => if String.eqb k key then Some v else obj_get rest key
  end.

Definition obj_has (props : list (string * jv)) (key : string) : bool :=
  match obj_get props key with
  | Some _ => true
  | None => false
  end.

(** [object[key] = value] on an own or a new property: an own property
    keeps its place, a new one comes last (a new name that reads as an
    integer would be listed before the other names; nothing proved below
    depends on the place of a new property). *)
Fixpoint obj_set (props : list (string * jv)) (key : string) (value : jv)
    : list (string * jv) :=
  match props with
  | [] => [(key, value)]
  | (k, v) :: rest =>
      if String.eqb k key then (k, value) :: rest
      else (k, v) :: obj_set rest key value
  end.

(** [string.split(".")]. *)
Fixpoint split_dot_from (current : string) (s : string) : list string :=
  match s with
  | EmptyString => [current]
  | String c rest =>
      if Ascii.eqb c "." then current :: split_dot_from "" rest
      else split_dot_from (current ++ String c "") rest
  end.

Definition split_dot (path : string) : list string := split_dot_from "" path.

(** The index a property name stands for in an array or a string: the
    decimal text of a number, without sign or leading zero. *)
Definition arrayIndex (name : string) : option nat :=
  match name with
  | EmptyString => None
  | String "0" EmptyString => Some O
  | String "0" _ => None
  | _ =>
      let '(z, count) := digitRun 0 0 name in
      if Nat.eqb count (String.length name) then Some (Z.to_nat z) else None
  end.

(** [value.hasOwnProperty(name)] and [value[name]] for an own property:
    the properties of an object, the indices and the [length] of an array or
    of a string; numbers and booleans have none. *)
Definition ownProperty (v : jv) (name : string) : option jv :=
  match v with
  | VObj props => obj_get props name
  | VArr elems =>
      if String.eqb name "length" then Some (VNum (Fin (Z.of_nat (List.length elems))))
      else match arrayIndex name with
           | Some i => nth_error elems i
           | None => None
           end
  | VStr s =>
      if String.eqb name "length" then Some (VNum (Fin (Z.of_nat (String.length s))))
      else match arrayIndex name with
           | Some i => match String.get i s with
                       | Some c => Some (VStr (String c ""))
                       | None => None
                       end
           | None => None
           end
  | VUndefined | VNull | VBool _ | VNum _ => None
  end.

(** The call [result.hasOwnProperty(chunk)].  The method is looked up on
    the value: an object with an own property named [hasOwnProperty] hides
    the inherited method behind a value that is no function, and the call
    throws. *)
Definition hasOwnProperty (v : jv) (name : string) : result bool :=
  match v with
  | VObj props =>
      if obj_has props "hasOwnProperty"
      then Throw "result.hasOwnProperty is not a function"
      else Ok (obj_has props name)
  | _ =>
      Ok match ownProperty v name with
         | Some _ => true
         | None => false
         end
  end.

(** [result[chunk]]. *)
Definition getProperty (v : jv) (name : string) : jv :=
  match ownProperty v name with
  | Some x => x
  | None => VUndefined
  end.

(** The loop of [getByPath] over the chunks of the path, with its
    [break]. *)
Fixpoint getByPath_loop (result_ : jv) (chunks : list string) (defaultValue : jv)
    : result jv :=
  match chunks with
  | [] => Ok result_
  | chunk :: rest =>
      if notNull result_
      then
        (own <- hasOwnProperty result_ chunk ;;
         if (own : bool) then getByPath_loop (getProperty result_ chunk) rest defaultValue
         else Ok defaultValue)
      else Ok defaultValue
  end.

Definition getByPath (object : jv) (path : string) (defaultValue : jv) : result jv :=
  if negb (truthy_jv object) || String.eqb path "" then Ok defaultValue
  else
    let result_ := object in
    let chunks := split_dot path in
    getByPath_loop result_ chunks defaultValue.

(** No object inside the value has an own property named
    [hasOwnProperty]. *)
Fixpoint methodsVisible (v : jv) : bool :=
  match v with
  | VObj props =>
      negb (obj_has props "hasOwnProperty")
      && (fix all (ps : list (string * jv)) : bool :=
            match ps with
            | [] => true
            | (_, x) :: rest => methodsVisible x && all rest
            end) props
  | VArr elems =>
      (fix all (es : list jv) : bool :=
         match es with
         | [] => true
         | x :: rest => methodsVisible x && all rest
         end) elems
  | _ => true
  end.

(** [!!val && val.constructor === Object]: a plain object, unless an own
    property named [constructor] hides the inherited one. *)
Definition isObject (val : jv) : bool :=
  match val with
  | VObj props => negb (obj_has props "constructor")
  | _ => false
  end.

(** What a call leaves of the object it was given.  [TypeError] is the
    error a strict-mode assignment to a property of a primitive throws;
    [BeyondPlainObjects] marks the calls that write through the inherited
    [__proto__] or onto an array, which this data model does not follow. *)
Inductive written : Type :=
| Done (object : jv)
| TypeError
| BeyondPlainObjects.

(** An assignment [object[name] = ...] reaches the inherited accessor
    [__proto__] when the object has no own property of that name. *)
Definition reachesProto (props : list (string * jv)) (name : string) : bool :=
  String.eqb name "__proto__" && negb (obj_has props name).

(** The [reduce] of [setByPath] over the chunks before the last, then the
    assignment of the value, on the properties of the object reached so
    far; the result is these properties after the call. *)
Fixpoint setByPath_from (props : list (string * jv)) (withoutLast : list string)
    (lastChunk : string) (value : jv) : option (list (string * jv)) :=
  match withoutLast with
  | [] =>
      if reachesProto props lastChunk then None
      else Some (obj_set props lastChunk value)
  | chunk :: rest =>
      if reachesProto props chunk then None
      else
        let child :=
          match obj_get props chunk with
          | Some (VObj childProps) =>
              if isObject (VObj childProps) then childProps else []
          | _ => []
          end in
        match setByPath_from child rest lastChunk value with
        | Some child' => Some (obj_set props chunk (VObj child'))
        | None => None
        end
  end.

Definition setByPath (object : jv) (path : string) (value : jv) : written :=
  if negb (truthy_jv object) || String.eqb path "" then Done object
  else
    let chunks := split_dot path in
    let withoutLast := slice chunks 0 (-1) in
    let lastChunk := last chunks EmptyString in
    match object with
    | VObj props =>
        match setByPath_from props withoutLast lastChunk value with
        | Some props' => Done (VObj props')
        | None => BeyondPlainObjects
        end
    | VArr _ => BeyondPlainObjects
    | _ =>
        if String.eqb (hd EmptyString chunks) "__proto__" then BeyondPlainObjects
        else TypeError
    end.

(** A property name without a dot: one chunk of a path. *)
Fixpoint noDot (s : string) : bool :=
  match s with
  | EmptyString => true
  | String c rest => negb (Ascii.eqb c ".") && noDot rest
  end.

(** [Object.keys(object).forEach(key => newObj[key] = func(object[key]))]
    on a plain object. *)
Definition mapObject (props : list (string * jv)) (func : jv -> jv)
    : option (list (string * jv)) :=
  let keys := map fst props in
  fold_left (fun newObj key =>
               match newObj with
               | Some acc =>
                   if reachesProto acc key then None
                   else Some (obj_set acc key
                                (func (match obj_get props key with
                                       | Some v => v
                                       | None => VUndefined
                                       end)))
               | None => None
               end)
            keys (Some []).

(** ** Templates *)

(** The characters of the class [[A-z]] of the placeholder pattern: the
    code units from [A] to [z], the letters and the six characters between
    [Z] and [a]. *)
Definition isAz (c : ascii) : bool :=
  let n := nat_of_ascii c in
  (65 <=? n)%nat && (n <=? 122)%nat.

(** [props[key] || fullMatch]; [props key] is the text of [props[key]], or
    [None] when [props[key]] is missing or falsy. *)
Definition replacer (props : string -> option string) (fullMatch key : string) : string :=
  match props key with
  | Some v => v
  | None => fullMatch
  end.

(** [text.replace(regExp, replacer)] for the pattern of [template], an
    opening brace, any number of characters of the class, a closing brace,
    matched everywhere; the text is read from left to right.  [pending] is
    [None] outside a placeholder and [Some key] after an opening brace and
    the characters [key] of the class; a placeholder that does not close is
    copied as it stands. *)
Fixpoint template_scan (props : string -> option string) (pending : option string)
    (text : string) : string :=
  match text with
  | EmptyString =>
      match pending with
      | None => EmptyString
      | Some key => String "{" key
      end
  | String c rest =>
      match pending with
      | None =>
          if Ascii.eqb c "{" then template_scan props (Some EmptyString) rest
          else String c (template_scan props None rest)
      | Some key =>
          if isAz c then template_scan props (Some (key ++ String c "")%string) rest
          else if Ascii.eqb c "}"
          then (replacer props (String "{" (key ++ "}")) key
                ++ template_scan props None rest)%string
          else (String "{" key
                ++ (if Ascii.eqb c "{" then template_scan props (Some EmptyString) rest
                    else String c (template_scan props None rest)))%string
      end
  end.

Definition template (text : string) (props : option (string -> option string)) : string :=
  match props with
  | None => text
  | Some p => template_scan p None text
  end.

(** A text without braces, and a name made of characters of the class. *)
Fixpoint noBrace (s : string) : bool :=
  match s with
  | EmptyString => true
  | String c rest => negb (Ascii.eqb c "{") && negb (Ascii.eqb c "}") && noBrace rest
  end.

Fixpoint allAz (s : string) : bool :=
  match s with
  | EmptyString => true
  | String c rest => isAz c && allAz rest
  end.

(** The names that stand between braces in a text: the keys that the
    pattern of [template] captures, in the order of their matches. *)
Fixpoint placeholders_scan (pending : option string) (text : string) : list string :=
  match text with
  | EmptyString => []
  | String c rest =>
      match pending with
      | None =>
          if Ascii.eqb c "{" then placeholders_scan (Some EmptyString) rest
          else placeholders_scan None rest
      | Some key =>
          if isAz c then placeholders_scan (Some (key ++ String c "")%string) rest
          else if Ascii.eqb c "}" then key :: placeholders_scan None rest
          else if Ascii.eqb c "{" then placeholders_scan (Some EmptyString) rest
          else placeholders_scan None rest
      end
  end.

Definition placeholders (text : string) : list string := placeholders_scan None text.

(** ** Sorting *)

(** [Array.prototype.sort(compare)]: the sort is stable, and for a
    comparator that orders its arguments consistently the sorted array is
    the one stable arrangement in that order, whatever the algorithm;
    inserting the elements from the last to the first computes it. *)
Fixpoint sort_insert {A : Type} (compare : A -> A -> Z) (x : A) (sorted : list A)
    : list A :=
  match sorted with
  | [] => [x]
  | y :: rest =>
      if 0 <? compare x y then y :: sort_insert compare x rest
      else x :: sorted
  end.

Definition Array_sort {A : Type} (compare : A -> A -> Z) (l : list A) : list A :=
  fold_right (sort_insert compare) [] l.

Definition sortByKey {A : Type} (iterable : list A) (keyFunc : A -> Z) : list A :=
  Array_sort (fun a b =>
                if keyFunc a <? keyFunc b then -1
                else if keyFunc b <? keyFunc a then 1
                else 0)
             iterable.

(** The elements of a list under one key, in their order. *)
Definition withKey {A : Type} (keyFunc : A -> Z) (k : Z) (l : list A) : list A :=
  filter (fun a => keyFunc a =? k) l.

(** ** Merging objects *)

(** The names every object inherits from [Object.prototype], each of them
    the name of a function. *)
Definition inheritedFunctions : list string :=
  ["constructor"; "hasOwnProperty"; "isPrototypeOf"; "propertyIsEnumerable";
   "toLocaleString"; "toString"; "valueOf";
   "__defineGetter__"; "__defineSetter__"; "__lookupGetter__"; "__lookupSetter__"]%string.

Definition isInheritedFunction (name : string) : bool :=
  existsb (String.eqb name) inheritedFunctions.

(** The lookups [props[key]] of the object [{title: "Card"}] that are
    truthy, each with its text: its own [title]; the functions it inherits,
    whose text is the host's, here as V8 writes it ([constructor] is the
    function [Object]); and the inherited [__proto__], which is
    [Object.prototype]. *)
Definition titleProps (key : string) : option string :=
  if String.eqb key "title" then Some "Card"%string
  else if String.eqb key "constructor"
  then Some "function Object() { [native code] }"%string
  else if isInheritedFunction key
  then Some ("function " ++ key ++ "() { [native code] }")%string
  else if String.eqb key "__proto__" then Some "[object Object]"%string
  else None.

(** The body of the [keys.forEach] of [mergeDeep] for one key of the
    source, on the properties of a plain target; [merge] is the nested call
    [mergeDeep(target[key], source[key])] on the properties of a plain
    object.  [None] marks a merge that reaches the inherited [__proto__]. *)
Definition mergeKey (merge : list (string * jv) -> jv -> option (list (string * jv)))
    (target : list (string * jv)) (key : string) (value : jv)
    : option (list (string * jv)) :=
  if isObject value then
    match obj_get target key with
    | Some held =>
        if negb (truthy_jv held)
        then option_map (fun merged => obj_set target key (VObj merged))
                        (merge [] value)
        else
          match held with
          | VObj heldProps =>
              if isObject held
              then option_map (fun merged => obj_set target key (VObj merged))
                              (merge heldProps value)
              else Some target
          | _ => Some target
          end
    | None =>
        if String.eqb key "__proto__" then None
        else if isInheritedFunction key then Some target
        else option_map (fun merged => obj_set target key (VObj merged))
                        (merge [] value)
    end
  else
    match value with
    | VUndefined => Some target
    | _ =>
        if reachesProto target key then None
        else Some (obj_set target key value)
    end.

(** [Object.keys(source).forEach(...)], over the properties of the source
    in order. *)
Definition forEachKey (merge : list (string * jv) -> jv -> option (list (string * jv)))
    : list (string * jv) -> list (string * jv) -> option (list (string * jv)) :=
  fix forEach (entries : list (string * jv)) (target : list (string * jv))
      {struct entries} : option (list (string * jv)) :=
    match entries with
    | [] => Some target
    | (key, value) :: rest =>
        match mergeKey merge target key value with
        | Some target' => forEach rest target'
        | None => None
        end
    end.

(** One plain source merged into the properties of a plain target. *)
Fixpoint mergeObjects (target : list (string * jv)) (source : jv) {struct source}
    : option (list (string * jv)) :=
  match source with
  | VObj sourceProps =>
      forEachKey (fun heldProps value => mergeObjects heldProps value)
                 sourceProps target
  | _ => Some target
  end.

(** [mergeDeep(target, ...sources)]: the sources are merged in turn. *)
Fixpoint mergeDeep (target : jv) (sources : list jv) : option jv :=
  match sources with
  | [] => Some target
  | source :: rest =>
      let merged :=
        match target with
        | VObj targetProps =>
            if isObject target && isObject source
            then option_map VObj (mergeObjects targetProps source)
            else Some target
        | _ => Some target
        end in
      match merged with
      | Some target' => mergeDeep target' rest
      | None => None
      end
  end.

(** No object inside the value has an own property named [__proto__]. *)
Fixpoint protoFree (v : jv) : bool :=
  match v with
  | VObj props =>
      negb (obj_has props "__proto__")
      && (fix all (ps : list (string * jv)) : bool :=
            match ps with
            | [] => true
            | (_, x) :: rest => protoFree x && all rest
            end) props
  | VArr elems =>
      (fix all (es : list jv) : bool :=
         match es with
         | [] => true
         | x :: rest => protoFree x && all rest
         end) elems
  | _ => true
  end.

(** Case analysis on the integer comparisons of the goal. *)
Ltac cmp_cases :=
  repeat match goal with
         | |- context [?x <=? ?y] => destruct (Z.leb_spec x y)
         | |- context [?x <? ?y] => destruct (Z.ltb_spec x y)
         end.

(** ** Facts about the queue *)

Module PQFacts.
Import MinPriorityQueue.

Section Facts.

Context {E : Type}.

Implicit Types (e : entry E) (q : t E).

Lemma insert_perm e q : Permutation (insert e q) (e :: q).
Proof.
  induction q as [|e' q IH]; simpl.
  - apply Permutation_refl.
  - destruct (priority e' <=? priority e).
    + eapply perm_trans; [apply perm_skip, IH | apply perm_swap].
    + apply Permutation_refl.
Qed.

Lemma insert_In e e0 q : In e0 (insert e q) <-> e0 = e \/ In e0 q.
Proof.
  split; intros H.
  - apply (Permutation_in _ (insert_perm e q)) in H.
    destruct H as [H|H]; [left; symmetry; exact H | right; exact H].
  - apply (Permutation_in _ (Permutation_sym (insert_perm e q))).
    destruct H as [H|H]; [left; symmetry; exact H | right; exact H].
Qed.

Lemma insert_ascending e q : ascending q -> ascending (insert e q).
Proof.
  unfold ascending.
  induction q as [|e' q IH]; simpl; intros Hq.
  - repeat constructor.
  - inversion Hq as [|x l Hl Hx]; subst.
    destruct (priority e' <=? priority e) eqn:Hle; simpl.
    + constructor; [apply IH; assumption|].
      apply Forall_forall. intros p Hp.
      apply in_map_iff in Hp. destruct Hp as [e0 [<- He0]].
      apply insert_In in He0. destruct He0 as [->|He0].
      * apply Z.leb_le; assumption.
      * rewrite Forall_forall in Hx. apply Hx, in_map; assumption.
    + apply Z.leb_gt in Hle.
      constructor; [assumption|].
      constructor; [lia|].
      eapply Forall_impl; [|exact Hx]. simpl. intros; lia.
Qed.

Lemma insert_length e q : size (insert e q) = S (size q).
Proof.
  unfold size. apply (Permutation_length (insert_perm e q)).
Qed.

(** Popping until the queue is empty hands out the entries in the order
    the queue keeps them. *)
Lemma popAll_enough (fuel : nat) q :
  (size q <= fuel)%nat -> popAll fuel q = q.
Proof.
  revert q. induction fuel as [|fuel IH]; intros [|e q] Hq; simpl in *;
    try reflexivity; try lia.
  f_equal. apply IH. lia.
Qed.

Lemma drain_all q : drain q = q.
Proof. apply popAll_enough. apply Nat.le_refl. Qed.

End Facts.
End PQFacts.

(** ** Facts about the numbers *)

Lemma ngt_zero_pos (p : num) :
  ngt p (Fin 0) = true <-> exists z, p = Fin z /\ 0 < z.
Proof.
  destruct p as [|z]; simpl.
  - split; [discriminate | intros [z [Hz _]]; discriminate].
  - unfold ngt; simpl. rewrite Z.ltb_lt. split.
    + intros Hz. exists z. split; [reflexivity | assumption].
    + intros [z' [Hz' Hpos]]. injection Hz' as ->. assumption.
Qed.

Lemma nle_Fin (a b : num) :
  nle a b = true <-> exists x y, a = Fin x /\ b = Fin y /\ x <= y.
Proof.
  destruct a as [|x], b as [|y]; simpl;
    try (split; [discriminate | intros (x' & y' & Hx & Hy & _); discriminate]).
  rewrite Z.leb_le. split.
  - intros H. exists x, y. auto.
  - intros (x' & y' & Hx & Hy & H). injection Hx as ->. injection Hy as ->. exact H.
Qed.

Lemma nlt_Fin (a b : num) :
  nlt a b = true <-> exists x y, a = Fin x /\ b = Fin y /\ x < y.
Proof.
  destruct a as [|x], b as [|y]; simpl;
    try (split; [discriminate | intros (x' & y' & Hx & Hy & _); discriminate]).
  rewrite Z.ltb_lt. split.
  - intros H. exists x, y. auto.
  - intros (x' & y' & Hx & Hy & H). injection Hx as ->. injection Hy as ->. exact H.
Qed.

Lemma nle_NaN_l (b : num) : nle NaN b = false.
Proof. reflexivity. Qed.

Lemma nle_NaN_r (a : num) : nle a NaN = false.
Proof. destruct a; reflexivity. Qed.

Lemma nlt_NaN_r (a : num) : nlt a NaN = false.
Proof. destruct a; reflexivity. Qed.

(** ** Facts about the loop of [getTransitions] *)

Section Scheduler.

Variable h : Host.
Variable currentDate : value.

Lemma enqueueAll_app calls1 calls2 (q : transitions) :
  enqueueAll (calls1 ++ calls2) q
  = (q' <- enqueueAll calls1 q ;; enqueueAll calls2 q').
Proof.
  revert q. induction calls1 as [|[el p] calls1 IH]; intros q; simpl.
  - reflexivity.
  - destruct (PQ.enqueue el p q) as [q'|msg]; simpl; [apply IH | reflexivity].
Qed.

Lemma transitionStep_calls c (q : transitions) :
  transitionStep h currentDate c q = enqueueAll (cardEvents h currentDate c) q.
Proof.
  unfold transitionStep, cardEvents.
  fold (startPriority h currentDate c). fold (endPriority h currentDate c).
  set (sp := startPriority h currentDate c).
  set (ep := endPriority h currentDate c).
  destruct (truthy_num sp && ngt sp (Fin 0));
    destruct (truthy (endDate c) && ngt ep (Fin 0));
    cbn [app enqueueAll bind];
    repeat match goal with
           | |- context [PQ.enqueue ?el ?p ?q0] =>
               destruct (PQ.enqueue el p q0); cbn [bind enqueueAll]
           end;
    reflexivity.
Qed.

Lemma transitionLoop_calls cards (q : transitions) :
  transitionLoop h currentDate cards q
  = enqueueAll (enqueueCalls h currentDate cards) q.
Proof.
  revert q. induction cards as [|c cards IH]; intros q; simpl.
  - reflexivity.
  - rewrite enqueueAll_app, transitionStep_calls.
    destruct (enqueueAll (cardEvents h currentDate c) q) as [q'|msg]; simpl;
      [apply IH | reflexivity].
Qed.

(** Every call hands [enqueue] a positive number. *)
Lemma cardEvents_positive c :
  Forall (positiveCall) (cardEvents h currentDate c).
Proof.
  unfold cardEvents. apply Forall_app. split.
  - destruct (truthy_num (startPriority h currentDate c)
              && ngt (startPriority h currentDate c) (Fin 0)) eqn:Hs;
      [|constructor].
    apply andb_true_iff in Hs. destruct Hs as [_ Hs].
    constructor; [|constructor]. apply ngt_zero_pos, Hs.
  - destruct (truthy (endDate c) && ngt (endPriority h currentDate c) (Fin 0)) eqn:He;
      [|constructor].
    apply andb_true_iff in He. destruct He as [_ He].
    constructor; [|constructor]. apply ngt_zero_pos, He.
Qed.

Lemma enqueueCalls_positive cards :
  Forall positiveCall (enqueueCalls h currentDate cards).
Proof.
  unfold enqueueCalls. induction cards as [|c cards IH]; simpl.
  - constructor.
  - apply Forall_app. split; [apply cardEvents_positive | exact IH].
Qed.

End Scheduler.

(** Calls with positive priorities all succeed; the queue they leave holds
    the old entries and one entry per call, and stays ascending. *)
Lemma enqueueAll_positive calls (q : transitions) :
  Forall positiveCall calls ->
  exists q', enqueueAll calls q = Ok q'
    /\ Permutation q' (callEntries calls ++ q)
    /\ (PQ.ascending q -> PQ.ascending q').
Proof.
  revert q. induction calls as [|[el p] calls IH]; intros q Hall; simpl.
  - exists q. split; [reflexivity|]. split; [apply Permutation_refl | auto].
  - inversion Hall as [|x l Hp Hrest]; subst.
    destruct Hp as [z [Hz Hpos]]. simpl in Hz. subst p. simpl.
    destruct (IH (PQ.insert (PQ.mkEntry z el) q) Hrest) as (q' & Hq' & Hperm & Hasc).
    exists q'. split; [exact Hq'|]. split.
    + eapply perm_trans; [exact Hperm|].
      eapply perm_trans;
        [apply Permutation_app_head, PQFacts.insert_perm|].
      apply Permutation_sym, Permutation_middle.
    + intros Hq. apply Hasc, PQFacts.insert_ascending, Hq.
Qed.

Lemma filter_perm {A : Type} (f : A -> bool) (l l' : list A) :
  Permutation l l' -> Permutation (filter f l) (filter f l').
Proof.
  induction 1 as [|x l l' _ IH|x y l|l l' l'' _ IH1 _ IH2]; simpl.
  - apply perm_nil.
  - destruct (f x); [apply perm_skip|]; exact IH.
  - destruct (f x), (f y);
      first [apply perm_swap | apply Permutation_refl].
  - exact (perm_trans IH1 IH2).
Qed.

(** [getTransitions] returns a queue: the entries of its calls, ascending. *)
Lemma getTransitions_queue env cards :
  exists q, getTransitions env cards = Ok q
    /\ Permutation q
         (callEntries (enqueueCalls (host env) (getCurrentDate env) cards))
    /\ PQ.ascending q.
Proof.
  unfold getTransitions. rewrite transitionLoop_calls.
  destruct (enqueueAll_positive
              (enqueueCalls (host env) (getCurrentDate env) cards) PQ.empty
              (enqueueCalls_positive _ _ _)) as (q & Hq & Hperm & Hasc).
  exists q. split; [exact Hq|]. split.
  - rewrite app_nil_r in Hperm. exact Hperm.
  - apply Hasc. constructor.
Qed.

Lemma callEntries_In calls (e : PQ.entry (option card)) :
  In e (callEntries calls)
  <-> In (PQ.element e, Fin (PQ.priority e)) calls.
Proof.
  unfold callEntries. rewrite in_flat_map. split.
  - intros [[el p] [Hin He]]. simpl in He. destruct p as [|z]; [destruct He|].
    destruct He as [<-|[]]. exact Hin.
  - intros Hin. exists (PQ.element e, Fin (PQ.priority e)). split; [exact Hin|].
    simpl. left. destruct e; reflexivity.
Qed.

Lemma callEntries_length calls :
  Forall positiveCall calls ->
  List.length (callEntries calls) = List.length calls.
Proof.
  induction 1 as [|[el p] calls [z [Hz _]] _ IH]; [reflexivity|].
  simpl in Hz. subst p. simpl. f_equal. exact IH.
Qed.

Lemma callEntries_app calls1 calls2 :
  callEntries (calls1 ++ calls2) = callEntries calls1 ++ callEntries calls2.
Proof. unfold callEntries. apply flat_map_app. Qed.

Lemma cardEvents_end_In h now c (p : num) :
  In (None, p) (cardEvents h now c)
  <-> endEventDue h now c = true /\ p = endPriority h now c.
Proof.
  unfold cardEvents, endEventDue. fold (endPriority h now c).
  rewrite in_app_iff. split.
  - intros [H|H].
    + destruct (truthy_num (startPriority h now c)
                && ngt (startPriority h now c) (Fin 0)); simpl in H.
      * destruct H as [H|[]]. discriminate H.
      * destruct H.
    + destruct (truthy (endDate c) && ngt (endPriority h now c) (Fin 0)); simpl in H.
      * destruct H as [H|[]]. injection H as <-. split; reflexivity.
      * destruct H.
  - intros [Hdue ->]. right. rewrite Hdue. left. reflexivity.
Qed.

(** The end events of a queue and of a list of cards. *)
Lemma callEntries_end_count h now cards :
  List.length (filter isEndEvent (callEntries (enqueueCalls h now cards)))
  = List.length (filter (endEventDue h now) cards).
Proof.
  induction cards as [|c cards IH]; [reflexivity|].
  unfold enqueueCalls in *. cbn [flat_map filter].
  rewrite callEntries_app, filter_app, length_app, IH.
  assert (Hc : List.length (filter isEndEvent (callEntries (cardEvents h now c)))
               = if endEventDue h now c then 1%nat else 0%nat).
  { unfold cardEvents, endEventDue. fold (endPriority h now c).
    generalize (cardEvents_positive h now c).
    unfold cardEvents. fold (endPriority h now c).
    destruct (truthy_num (startPriority h now c)
              && ngt (startPriority h now c) (Fin 0));
      destruct (truthy (endDate c) && ngt (endPriority h now c) (Fin 0));
      cbn [app]; intros Hpos;
      repeat match goal with
             | H : Forall positiveCall (_ :: _) |- _ =>
                 let z := fresh "z" in
                 let Hz := fresh "Hz" in
                 inversion H as [|? ? [z [Hz _]] ?]; subst; clear H;
                 cbn [snd] in Hz
             end;
      repeat match goal with
             | H : _ = Fin _ |- _ =>
                 unfold callEntries; cbn [flat_map snd fst]; rewrite H; clear H
             end;
      reflexivity. }
  rewrite Hc. destruct (endEventDue h now c); reflexivity.
Qed.

(** ** Facts about the clock and the interval tests *)

Lemma isDateBeforeInterval_spec h t s :
  isDateBeforeInterval h t s = true
  <-> exists a b, Date_parse h t = Fin a /\ Date_parse h s = Fin b /\ a < b.
Proof. unfold isDateBeforeInterval. apply nlt_Fin. Qed.

(** A tick of the timer moves the server-anchored clock on by a second and
    leaves the wall clock alone. *)
Lemma getCurrentDate_tick env z :
  parseInt (URLSearchParams_get (search env) "servertime") = Fin z ->
  z <> 0 ->
  getCurrentDate (incrementDifferential env)
  = newDate (Fin (z + differential env + 1000)).
Proof.
  intros Hz Hz0. unfold getCurrentDate, incrementDifferential.
  cbn [search differential wallClock]. rewrite Hz. simpl.
  destruct (Z.eqb_spec z 0) as [->|_]; [contradiction Hz0; reflexivity|].
  simpl. rewrite Z.add_assoc. reflexivity.
Qed.

(** The queue never throws on a number. *)
Lemma enqueue_number {E : Type} (el : E) (z : Z) (q : PQ.t E) :
  PQ.enqueue el (Fin z) q = Ok (PQ.insert (PQ.mkEntry z el) q).
Proof. reflexivity. Qed.

(** ** The helpers on sample inputs *)

Example parseInt_digits : parseInt10 "1000" = Fin 1000.
Proof. reflexivity. Qed.

Example parseInt_prefix : parseInt10 "  -42px" = Fin (-42).
Proof. reflexivity. Qed.

Example parseInt_no_digits : parseInt10 "soon" = NaN.
Proof. reflexivity. Qed.

Example parseInt_missing : parseInt JNull = NaN.
Proof. reflexivity. Qed.

Example parse_card_date h :
  Date_parse h (JStr "2021-10-11T21:00:00.000Z") = Fin 1633986000000.
Proof. reflexivity. Qed.

Example parse_date_only h : Date_parse h (JStr "2021-10-11") = Fin 1633910400000.
Proof. reflexivity. Qed.

Example parse_offset h :
  Date_parse h (JStr "2021-10-11T21:00:00.000+05:30") = Fin 1633966200000.
Proof. reflexivity. Qed.

Example parse_largest h :
  Date_parse h (JStr "+275760-09-13T00:00:00.000Z") = Fin maxTime.
Proof. reflexivity. Qed.

Example parse_beyond_largest h :
  Date_parse h (JStr "+275760-09-13T00:00:00.001Z") = NaN.
Proof. reflexivity. Qed.

Example parse_date_object h : Date_parse h (JDate (Fin 2500)) = Fin 2000.
Proof. reflexivity. Qed.

Example parse_strict_text : Date_parse strictHost malformedDate = NaN.
Proof. reflexivity. Qed.

Example within_at_start :
  isDateWithinInterval strictHost (JDate (Fin 2000))
    (JStr "1970-01-01T00:00:02.000Z") (JStr "1970-01-01T00:00:05.000Z") = true.
Proof. reflexivity. Qed.

Example within_at_end :
  isDateWithinInterval strictHost (JDate (Fin 5000))
    (JStr "1970-01-01T00:00:02.000Z") (JStr "1970-01-01T00:00:05.000Z") = true.
Proof. reflexivity. Qed.

Example within_after_end :
  isDateWithinInterval strictHost (JDate (Fin 6000))
    (JStr "1970-01-01T00:00:02.000Z") (JStr "1970-01-01T00:00:05.000Z") = false.
Proof. reflexivity. Qed.

Example banner_upcoming :
  getEventBanner (envAt1000 strictHost)
    (JStr "1970-01-01T00:00:02.000Z") (JStr "1970-01-01T00:00:05.000Z")
    exampleBanners = "Upcoming"%string.
Proof. reflexivity. Qed.

Example banner_live :
  getEventBanner (envAt1000 strictHost)
    (JStr "1970-01-01T00:00:01.000Z") (JStr "1970-01-01T00:00:05.000Z")
    exampleBanners = "Live"%string.
Proof. reflexivity. Qed.

Example banner_onDemand :
  getEventBanner (envAt1000 strictHost)
    (JStr "1970-01-01T00:00:00.000Z") (JStr "1970-01-01T00:00:00.500Z")
    exampleBanners = "On Demand"%string.
Proof. reflexivity. Qed.

Example clock_wall :
  getCurrentDate (mkEnv strictHost [("page", "2")%string] 7000 1633986000000)
  = JDate (Fin 1633986000000).
Proof. reflexivity. Qed.

Example clock_server :
  getCurrentDate (mkEnv strictHost [("servertime", "2000")%string] 7000 1633986000000)
  = JDate (Fin 9000).
Proof. reflexivity. Qed.

(** An item that has already started, and has no end date, gives no
    event. *)
Example started_item_no_event :
  getTransitions (envAt1000 strictHost)
    [mkCard "started" (JStr "1970-01-01T00:00:00.500Z") JUndefined]
  = Ok [].
Proof. reflexivity. Qed.

(** Events come out soonest first, whatever the order of the cards. *)
Example two_items_pop_order :
  getTransitions (envAt1000 strictHost)
    [mkCard "late" (JStr "1970-01-01T00:00:09.000Z") JUndefined;
     mkCard "soon" (JStr "1970-01-01T00:00:03.000Z") JUndefined]
  = Ok [PQ.mkEntry 2000 (Some (mkCard "soon" (JStr "1970-01-01T00:00:03.000Z") JUndefined));
        PQ.mkEntry 8000 (Some (mkCard "late" (JStr "1970-01-01T00:00:09.000Z") JUndefined))].
Proof. reflexivity. Qed.

(** ** The properties of the specification *)

(** C2. Every event that [getTransitions] enqueues, from the start-date
    branch or from the end-date branch, has a strictly positive priority:
    the loop is the sequence [enqueueCalls] of calls of [enqueue], each call
    passes a number above zero (never zero, a negative number or [NaN]), and
    every entry of the queue returned has a priority above zero. *)
Theorem getTransitions_priorities_positive :
  forall (env : Env) (cards : list card),
    let calls := enqueueCalls (host env) (getCurrentDate env) cards in
    getTransitions env cards = enqueueAll calls PQ.empty
    /\ Forall (fun call => exists z, snd call = Fin z /\ 0 < z) calls
    /\ exists q, getTransitions env cards = Ok q
         /\ Forall (fun e => 0 < PQ.priority e) q.
Proof.
  intros env cards calls. split; [|split].
  - unfold getTransitions. apply transitionLoop_calls.
  - apply enqueueCalls_positive.
  - destruct (getTransitions_queue env cards) as (q & Hq & Hperm & _).
    exists q. split; [exact Hq|].
    apply Forall_forall. intros e He.
    apply (Permutation_in _ Hperm), callEntries_In in He.
    pose proof (enqueueCalls_positive (host env) (getCurrentDate env) cards) as Hpos.
    rewrite Forall_forall in Hpos.
    destruct (Hpos _ He) as [z [Hz Hz0]]. simpl in Hz.
    injection Hz as ->. exact Hz0.
Qed.

(** C3. The end-date priority of an item is the double parse
    [Date.parse(Date.parse(item.endDate) - now)]; the queue returned holds
    an end event of priority [p] exactly when some item has a truthy
    [endDate] whose double parse is [p] and [p > 0]; the end events carry
    [null] for their item (every entry made by the end-date branch has no
    item, and there is one such entry per item that passes the test). *)
Theorem getTransitions_end_events :
  forall (env : Env) (cards : list card),
    let h := host env in
    let now := valueOf (getCurrentDate env) in
    exists q, getTransitions env cards = Ok q
      /\ (forall p : Z,
            In (PQ.mkEntry p None) q
            <-> exists c, In c cards
                  /\ truthy (endDate c) = true
                  /\ Date_parse h (JNum (nsub (Date_parse h (endDate c)) now)) = Fin p
                  /\ 0 < p)
      /\ List.length (filter isEndEvent q)
         = List.length (filter (endEventDue h (getCurrentDate env)) cards).
Proof.
  intros env cards h now.
  destruct (getTransitions_queue env cards) as (q & Hq & Hperm & _).
  exists q. split; [exact Hq|]. split.
  - intros p. split.
    + intros Hin.
      apply (Permutation_in _ Hperm), callEntries_In in Hin. simpl in Hin.
      unfold enqueueCalls in Hin. apply in_flat_map in Hin.
      destruct Hin as [c [Hc Hev]].
      apply cardEvents_end_In in Hev. destruct Hev as [Hdue Hp].
      unfold endEventDue in Hdue. apply andb_true_iff in Hdue.
      destruct Hdue as [Htruthy Hgt].
      exists c. repeat split; try assumption.
      * symmetry. exact Hp.
      * apply ngt_zero_pos in Hgt. destruct Hgt as [z [Hz Hz0]].
        unfold endPriority in Hp. fold h in Hz. fold now in Hz.
        unfold h, now in Hz. rewrite <- Hp in Hz. injection Hz as ->. exact Hz0.
    + intros (c & Hc & Htruthy & Hp & Hp0).
      apply (Permutation_in _ (Permutation_sym Hperm)), callEntries_In. simpl.
      unfold enqueueCalls. apply in_flat_map. exists c. split; [exact Hc|].
      apply cardEvents_end_In. unfold endEventDue, endPriority.
      fold h. fold now. rewrite Hp, Htruthy. simpl.
      split; [|reflexivity]. unfold ngt. simpl. apply Z.ltb_lt. exact Hp0.
  - rewrite <- callEntries_end_count.
    apply Permutation_length, filter_perm, Hperm.
Qed.

(** C7. Popping the minimum again and again from the queue that
    [getTransitions] returns gives the events in non-decreasing order of
    priority, and gives every event of the queue. *)
Theorem getTransitions_pop_order :
  forall (env : Env) (cards : list card),
    exists q, getTransitions env cards = Ok q
      /\ StronglySorted Z.le (map PQ.priority (PQ.drain q))
      /\ Permutation (PQ.drain q) q
      /\ List.length (PQ.drain q)
         = List.length (enqueueCalls (host env) (getCurrentDate env) cards).
Proof.
  intros env cards.
  destruct (getTransitions_queue env cards) as (q & Hq & Hperm & Hasc).
  exists q. rewrite PQFacts.drain_all.
  split; [exact Hq|]. split; [exact Hasc|]. split; [apply Permutation_refl|].
  rewrite (Permutation_length Hperm).
  apply callEntries_length, enqueueCalls_positive.
Qed.

(** C4. [isDateWithinInterval(t, s, e)] is true exactly when the three
    dates parse and [parse(s) <= parse(t) <= parse(e)]; it is true when the
    current date parses to the same instant as the start or as the end of a
    non-empty interval; and it is false as soon as one of the three does not
    parse. *)
Theorem isDateWithinInterval_spec :
  forall (h : Host) (t s e : value),
    (isDateWithinInterval h t s e = true
     <-> exists a b c,
           Date_parse h s = Fin a /\ Date_parse h t = Fin b
           /\ Date_parse h e = Fin c /\ a <= b <= c)
    /\ (forall a c,
          Date_parse h s = Fin a -> Date_parse h e = Fin c -> a <= c ->
          Date_parse h t = Fin a \/ Date_parse h t = Fin c ->
          isDateWithinInterval h t s e = true)
    /\ (Date_parse h t = NaN \/ Date_parse h s = NaN \/ Date_parse h e = NaN ->
        isDateWithinInterval h t s e = false).
Proof.
  intros h t s e. unfold isDateWithinInterval, nge.
  split; [|split].
  - rewrite andb_true_iff, !nle_Fin. split.
    + intros [(a & b & Ha & Hb & Hab) (b' & c & Hb' & Hc & Hbc)].
      rewrite Hb in Hb'. injection Hb' as <-.
      exists a, b, c. repeat split; assumption.
    + intros (a & b & c & Ha & Hb & Hc & Hab & Hbc). split.
      * exists a, b. auto.
      * exists b, c. auto.
  - intros a c Ha Hc Hac [Ht|Ht]; rewrite Ha, Hc, Ht; simpl;
      apply andb_true_iff; split; apply Z.leb_le; lia.
  - intros [H|[H|H]]; rewrite H.
    + rewrite nle_NaN_r. reflexivity.
    + reflexivity.
    + rewrite nle_NaN_r. apply andb_false_r.
Qed.

(** [Date.parse] of the date that [getCurrentDate] returns is the start
    of the second of the current time. *)
Lemma Date_parse_current (env : Env) (z : Z) :
  valueOf (getCurrentDate env) = Fin z ->
  Z.abs z <= maxTime ->
  Date_parse (host env) (getCurrentDate env) = Fin (startOfSecond z).
Proof.
  intros Hnow Hz.
  assert (Hdate : exists t, getCurrentDate env = JDate t).
  { unfold getCurrentDate, newDate. cbv zeta.
    destruct (truthy_num _); eexists; reflexivity. }
  destruct Hdate as [t Ht]. rewrite Ht in Hnow |- *. simpl in Hnow. subst t.
  unfold Date_parse, timeClip, startOfSecond.
  assert (Hclip : (Z.abs (1000 * (z / 1000)) <=? maxTime) = true).
  { apply Z.leb_le. unfold maxTime in *.
    pose proof (Z.div_mod z 1000 ltac:(lia)) as Hdm.
    pose proof (Z.mod_pos_bound z 1000 ltac:(lia)) as Hmod.
    lia. }
  rewrite Hclip. reflexivity.
Qed.

(** C5 as stated fails, on every host: the current time 5999 is after the
    end of the interval from 1000 to 5000, not within it, and yet
    [getEventBanner] returns [m.live], not [m.onDemand], because
    [Date.parse] reads the current date through its text, which stops at the
    second. *)
Lemma getEventBanner_not_by_the_millisecond :
  (forall h, valueOf (getCurrentDate (envAt5999 h)) = Fin 5999)
  /\ (forall h, Date_parse h secondOne = Fin 1000 /\ Date_parse h secondFive = Fin 5000)
  /\ (forall h, getEventBanner (envAt5999 h) secondOne secondFive exampleBanners
                = live exampleBanners)
  /\ (forall h, classifyBanner h (Fin 5999) secondOne secondFive exampleBanners
                = onDemand exampleBanners)
  /\ ~ (forall (env : Env) (s e : value) (m : BannerMap string),
          getEventBanner env s e m
          = classifyBanner (host env) (valueOf (getCurrentDate env)) s e m).
Proof.
  split; [reflexivity|]. split; [intros h; split; reflexivity|].
  split; [reflexivity|]. split; [reflexivity|].
  intros H.
  specialize (H (envAt5999 strictHost) secondOne secondFive exampleBanners).
  discriminate H.
Qed.

(** C5, amended.  [getEventBanner] classifies the current time cut down to
    the start of its second, [t]: it returns [m.live] when [t] is within the
    interval, else [m.upcoming] when [t] is before the start, else
    [m.onDemand]; so it returns one of the three.  When [s <= e] the three
    conditions on [t] (within, before the start, after the end) exclude one
    another, and when [t] is a number exactly one of them holds, after the
    end being the remaining case that selects [m.onDemand].  [t] is less
    than a second before the current time, and is the current time when
    that is on a whole second. *)
Theorem getEventBanner_classifies :
  forall (B : Type) (env : Env) (s e : value) (m : BannerMap B),
    let h := host env in
    let now := valueOf (getCurrentDate env) in
    let t := Date_parse h (getCurrentDate env) in
    let within := nle (Date_parse h s) t && nle t (Date_parse h e) in
    let before := nlt t (Date_parse h s) in
    let after := nlt (Date_parse h e) t in
    (forall z, now = Fin z -> Z.abs z <= maxTime ->
       t = Fin (startOfSecond z)
       /\ z - 1000 < startOfSecond z <= z
       /\ (z mod 1000 = 0 -> t = now))
    /\ getEventBanner env s e m
       = (if within then live m else if before then upcoming m else onDemand m)
    /\ getEventBanner env s e m = classifyBanner h t s e m
    /\ (getEventBanner env s e m = live m
        \/ getEventBanner env s e m = upcoming m
        \/ getEventBanner env s e m = onDemand m)
    /\ within && before = false
    /\ (nle (Date_parse h s) (Date_parse h e) = true ->
        within && after = false /\ before && after = false
        /\ (t <> NaN ->
            (within = true /\ before = false /\ after = false)
            \/ (within = false /\ before = true /\ after = false)
            \/ (within = false /\ before = false /\ after = true))).
Proof.
  intros B env s e m h now t within before after.
  assert (Hcode : getEventBanner env s e m
                  = if within then live m
                    else if before then upcoming m else onDemand m)
    by reflexivity.
  split; [|split; [exact Hcode|split; [reflexivity|split; [|split]]]].
  - intros z Hnow Hz.
    pose proof (Date_parse_current env z Hnow Hz) as Ht. fold h in Ht. fold t in Ht.
    pose proof (Z.div_mod z 1000 ltac:(lia)) as Hdm.
    pose proof (Z.mod_pos_bound z 1000 ltac:(lia)) as Hmod.
    split; [exact Ht|]. unfold startOfSecond. split; [lia|].
    intros H0. rewrite Ht, Hnow.
    unfold startOfSecond. f_equal. lia.
  - rewrite Hcode. destruct within; [|destruct before]; auto.
  - unfold within, before.
    destruct (Date_parse h s) as [|a], t as [|b], (Date_parse h e) as [|c];
      simpl; cmp_cases; simpl; try reflexivity; lia.
  - unfold within, before, after.
    destruct (Date_parse h s) as [|a], (Date_parse h e) as [|c];
      simpl; try discriminate.
    intros Hse. apply Z.leb_le in Hse.
    destruct t as [|b]; simpl.
    + split; [reflexivity|]. split; [reflexivity|].
      intros H; contradiction H; reflexivity.
    + cmp_cases; simpl; try lia;
        (split; [reflexivity|]; split; [reflexivity|]; intros _; auto 6).
Qed.

(** C9. Called with a start date that does not parse, [getEventBanner]
    returns [m.onDemand], whatever the current time, the end date and the
    banner map: the within test and the before test are both false. *)
Theorem getEventBanner_malformed_start :
  forall (B : Type) (env : Env) (s e : value) (m : BannerMap B),
    Date_parse (host env) s = NaN ->
    isDateWithinInterval (host env) (getCurrentDate env) s e = false
    /\ isDateBeforeInterval (host env) (getCurrentDate env) s = false
    /\ getEventBanner env s e m = onDemand m.
Proof.
  intros B env s e m Hs.
  assert (Hw : isDateWithinInterval (host env) (getCurrentDate env) s e = false).
  { unfold isDateWithinInterval. rewrite Hs. reflexivity. }
  assert (Hb : isDateBeforeInterval (host env) (getCurrentDate env) s = false).
  { unfold isDateBeforeInterval. rewrite Hs. apply nlt_NaN_r. }
  split; [exact Hw|]. split; [exact Hb|].
  unfold getEventBanner. rewrite Hw, Hb. reflexivity.
Qed.

(** A result that is an integer of magnitude at most 2^53 is not rounded. *)
Lemma nearest_exact (z : Z) : Number.exact z -> Number.nearest z = Number.Int z.
Proof.
  unfold Number.exact. intros Hz.
  destruct (Z.eq_dec (Z.abs z) (2 ^ 53)) as [Hedge|Hin].
  - assert (Hcases : z = 2 ^ 53 \/ z = - 2 ^ 53) by lia.
    destruct Hcases as [-> | ->]; reflexivity.
  - unfold Number.nearest.
    assert (He : (Z.log2 (Z.abs z) - 52 <=? 0) = true).
    { apply Z.leb_le.
      destruct (Z.eq_dec (Z.abs z) 0) as [H0|H0]; [rewrite H0; simpl; lia|].
      assert (Z.log2 (Z.abs z) < 53); [|lia].
      apply Z.log2_lt_pow2; lia. }
    cbv zeta. rewrite He. reflexivity.
Qed.

(** C10 as stated fails on page 1: the code returns 1 whatever
    [showItemsPerPage] is, and the formula gives 0 for 1e16, where
    [1e16 - 1] is rounded to [1e16], and [NaN] for [NaN], which is also what
    a missing argument is in the arithmetic. *)
Lemma getStartNumber_formula_differs_on_page_1 :
  getStartNumber_onNumbers (Number.Int 1) (Number.Int (10 ^ 16)) = Number.Int 1
  /\ startNumberFormula_onNumbers (Number.Int 1) (Number.Int (10 ^ 16)) = Number.Int 0
  /\ getStartNumber_onNumbers (Number.Int 1) Number.NaN = Number.Int 1
  /\ startNumberFormula_onNumbers (Number.Int 1) Number.NaN = Number.NaN
  /\ ~ (forall c s : Number.t,
          getStartNumber_onNumbers c s = startNumberFormula_onNumbers c s).
Proof.
  repeat (split; [reflexivity|]).
  intros H. specialize (H (Number.Int 1) Number.NaN). discriminate H.
Qed.

(** C10, amended.  For integers [currentPageNumber] and [showItemsPerPage]
    that are exact Numbers, as are the product, [showItemsPerPage - 1] and
    the result (magnitudes up to 2^53), [getStartNumber] equals
    [currentPageNumber * showItemsPerPage - (showItemsPerPage - 1)]: the
    arithmetic of Numbers is there the exact one, and on page 1 the formula
    gives the 1 that the special case returns.  For a page number other than
    1 the code is the formula, for all Numbers. *)
Theorem getStartNumber_formula :
  forall currentPageNumber showItemsPerPage : Z,
    Number.exact currentPageNumber ->
    Number.exact showItemsPerPage ->
    Number.exact (currentPageNumber * showItemsPerPage) ->
    Number.exact (showItemsPerPage - 1) ->
    Number.exact (currentPageNumber * showItemsPerPage - (showItemsPerPage - 1)) ->
    getStartNumber_onNumbers (Number.Int currentPageNumber) (Number.Int showItemsPerPage)
    = startNumberFormula_onNumbers (Number.Int currentPageNumber)
                                   (Number.Int showItemsPerPage)
    /\ getStartNumber_onNumbers (Number.Int currentPageNumber)
                                (Number.Int showItemsPerPage)
       = Number.Int (getStartNumber currentPageNumber showItemsPerPage)
    /\ getStartNumber currentPageNumber showItemsPerPage
       = startNumberFormula currentPageNumber showItemsPerPage
    /\ (currentPageNumber = 1 ->
        startNumberFormula_onNumbers (Number.Int 1) (Number.Int showItemsPerPage)
        = Number.Int 1)
    /\ (forall c s : Number.t,
          Number.strictEq c (Number.Int 1) = false ->
          getStartNumber_onNumbers c s = startNumberFormula_onNumbers c s).
Proof.
  intros c s Hc Hs Hcs Hs1 Hres.
  assert (Hformula : startNumberFormula_onNumbers (Number.Int c) (Number.Int s)
                     = Number.Int (startNumberFormula c s)).
  { unfold startNumberFormula_onNumbers, startNumberFormula. cbn [Number.mul Number.sub].
    rewrite (nearest_exact _ Hcs), (nearest_exact _ Hs1). cbn [Number.sub].
    apply nearest_exact, Hres. }
  assert (Hcode : getStartNumber c s = startNumberFormula c s).
  { unfold getStartNumber, startNumberFormula.
    destruct (c =? 1) eqn:H1; [|reflexivity].
    apply Z.eqb_eq in H1. subst c. lia. }
  assert (Hnum : getStartNumber_onNumbers (Number.Int c) (Number.Int s)
                 = Number.Int (getStartNumber c s)).
  { unfold getStartNumber_onNumbers, getStartNumber. cbn [Number.strictEq].
    destruct (c =? 1) eqn:H1; [reflexivity|].
    fold (startNumberFormula_onNumbers (Number.Int c) (Number.Int s)).
    rewrite Hformula. reflexivity. }
  split; [rewrite Hnum, Hformula, Hcode; reflexivity|].
  split; [exact Hnum|]. split; [exact Hcode|]. split.
  - intros ->. rewrite Hformula. unfold startNumberFormula. f_equal. lia.
  - intros c' s' Hne. unfold getStartNumber_onNumbers. rewrite Hne. reflexivity.
Qed.

(** The amended C10 on page 3 with 10 items per page. *)
Lemma getStartNumber_formula_witness :
  Number.exact 3 /\ Number.exact 10 /\ Number.exact (3 * 10) /\ Number.exact (10 - 1)
  /\ Number.exact (3 * 10 - (10 - 1))
  /\ getStartNumber_onNumbers (Number.Int 3) (Number.Int 10) = Number.Int 21.
Proof.
  assert (H3 : Number.exact 3) by (unfold Number.exact; simpl; lia).
  assert (H10 : Number.exact 10) by (unfold Number.exact; simpl; lia).
  assert (H30 : Number.exact (3 * 10)) by (unfold Number.exact; simpl; lia).
  assert (H9 : Number.exact (10 - 1)) by (unfold Number.exact; simpl; lia).
  assert (H21 : Number.exact (3 * 10 - (10 - 1))) by (unfold Number.exact; simpl; lia).
  repeat (split; [assumption|]).
  exact (proj1 (proj2 (getStartNumber_formula 3 10 H3 H10 H30 H9 H21))).
Defined.

(** C6. [getCurrentDate] returns [new Date(servertime + differential)],
    the instant [servertime + differential], when [parseInt] reads a number
    other than zero from the [servertime] parameter of the query string, and
    the wall-clock instant otherwise; a parameter that is missing or holds no
    number is read as [NaN] and gives the wall clock.  The function returns a
    date in every case. *)
Theorem getCurrentDate_spec :
  forall env : Env,
    let param := URLSearchParams_get (search env) "servertime" in
    let servertime := parseInt param in
    (forall z, servertime = Fin z -> z <> 0 ->
       getCurrentDate env = newDate (Fin (z + differential env))
       /\ (Z.abs (z + differential env) <= maxTime ->
           getCurrentDate env = JDate (Fin (z + differential env))))
    /\ (servertime = NaN \/ servertime = Fin 0 ->
        getCurrentDate env = JDate (Fin (wallClock env)))
    /\ (param = JNull -> getCurrentDate env = JDate (Fin (wallClock env)))
    /\ (forall v, param = JStr v -> parseInt10 v = NaN ->
        getCurrentDate env = JDate (Fin (wallClock env))).
Proof.
  intros env param servertime.
  assert (Hcode : getCurrentDate env
                  = if truthy_num servertime
                    then newDate (nadd servertime (Fin (differential env)))
                    else JDate (Fin (wallClock env))) by reflexivity.
  assert (Hnan : servertime = NaN -> getCurrentDate env = JDate (Fin (wallClock env))).
  { intros H. rewrite Hcode, H. reflexivity. }
  split; [|split; [|split]].
  - intros z Hz Hz0. rewrite Hcode, Hz. simpl.
    destruct (Z.eqb_spec z 0) as [->|_]; [contradiction Hz0; reflexivity|]. simpl.
    split; [reflexivity|].
    intros Hrange. unfold newDate, timeClip.
    destruct (Z.leb_spec (Z.abs (z + differential env)) maxTime); [reflexivity | lia].
  - intros [H|H]; [apply Hnan, H|]. rewrite Hcode, H. reflexivity.
  - intros H. apply Hnan. unfold servertime. rewrite H. reflexivity.
  - intros v H Hv. apply Hnan. unfold servertime. rewrite H. exact Hv.
Qed.


(** *** The example of the specification *)

Lemma parse_2000 h : Date_parse h (JNum (Fin 2000)) = Fin 946684800000.
Proof. reflexivity. Qed.

Lemma parse_5000 h : Date_parse h (JNum (Fin 5000)) = Fin 95617584000000.
Proof. reflexivity. Qed.

Lemma parse_4000 h : Date_parse h (JNum (Fin 4000)) = Fin 64060588800000.
Proof. reflexivity. Qed.

Lemma parse_text_95617583999000 h :
  Date_parse h (JNum (Fin 95617583999000)) = parseString h "95617583999000".
Proof. reflexivity. Qed.

Lemma getCurrentDate_envAt1000 h : getCurrentDate (envAt1000 h) = JDate (Fin 1000).
Proof. reflexivity. Qed.

(** With numbers for its dates the item gives a start event whose priority
    is counted from the first day of the year 2000. *)
Lemma numericCard_events h now :
  now = JDate (Fin 1000) ->
  cardEvents h now numericCard
  = (Some numericCard, Fin 946684799000)
    :: (if ngt (parseString h "95617583999000") (Fin 0)
        then [(None, parseString h "95617583999000")] else []).
Proof.
  intros ->. unfold cardEvents, startPriority, endPriority, numericCard.
  cbn [startDate endDate valueOf].
  rewrite parse_2000, parse_5000. cbn [nsub].
  change (946684800000 - 1000) with 946684799000.
  change (95617584000000 - 1000) with 95617583999000.
  rewrite parse_text_95617583999000. reflexivity.
Qed.

Lemma isoCard_events h now :
  now = JDate (Fin 1000) ->
  cardEvents h now isoCard
  = [(Some isoCard, Fin 1000); (None, Fin 64060588800000)].
Proof. intros ->. reflexivity. Qed.

Lemma getTransitions_single env c :
  getTransitions env [c]
  = enqueueAll (cardEvents (host env) (getCurrentDate env) c) PQ.empty.
Proof.
  unfold getTransitions. rewrite transitionLoop_calls.
  unfold enqueueCalls. cbn [flat_map]. rewrite app_nil_r. reflexivity.
Qed.

(** C1 as stated fails for the item of the example, on every host: with
    the numbers 2000 and 5000 for its dates the start event has priority
    946684799000, not 1000; with the date strings of the instants 2000 ms and
    5000 ms the end-date branch enqueues a second event. *)
Lemma getTransitions_example_not_one_event_of_1000 :
  ~ (exists h, oneEventOfPriority (getTransitions (envAt1000 h) [numericCard]) 1000)
  /\ ~ (exists h, oneEventOfPriority (getTransitions (envAt1000 h) [isoCard]) 1000).
Proof.
  split; intros [h [e [Hq Hp]]]; rewrite getTransitions_single in Hq;
    change (host (envAt1000 h)) with h in Hq.
  - rewrite (numericCard_events h _ (getCurrentDate_envAt1000 h)) in Hq.
    destruct (ngt (parseString h "95617583999000") (Fin 0)) eqn:Hend.
    + apply ngt_zero_pos in Hend. destruct Hend as [z [Hz _]].
      rewrite Hz in Hq. simpl in Hq.
      destruct (946684799000 <=? z); discriminate Hq.
    + simpl in Hq. injection Hq as <-. simpl in Hp. discriminate Hp.
  - rewrite (isoCard_events h _ (getCurrentDate_envAt1000 h)) in Hq.
    simpl in Hq. discriminate Hq.
Qed.

(** With date strings for its dates the item gives two events on every
    host: the difference [5000 - 1000] is handed to [Date.parse] as the text
    [4000], the year 4000. *)
Lemma getTransitions_isoCard env :
  getCurrentDate env = JDate (Fin 1000) ->
  getTransitions env [isoCard]
  = Ok [PQ.mkEntry 1000 (Some isoCard); PQ.mkEntry 64060588800000 None].
Proof.
  intros Hnow. rewrite getTransitions_single, (isoCard_events _ _ Hnow).
  reflexivity.
Qed.

(** C1, amended.  When the current time is 1000, for the single item
    [{startDate: 2000, endDate: 5000}] with the numbers 2000 and 5000 for
    its dates, exactly one event is enqueued: the start event of the item.
    Its priority is 946684799000, because [Date.parse(2000)] is
    [Date.parse("2000")], the first instant of the year 2000.  The end-date
    branch enqueues nothing on a host whose parser rejects the text
    [95617583999000] that the double parse hands it. *)
Theorem getTransitions_example :
  forall env : Env,
    getCurrentDate env = JDate (Fin 1000) ->
    parseString (host env) "95617583999000" = NaN ->
    getTransitions env [numericCard]
    = Ok [PQ.mkEntry 946684799000 (Some numericCard)].
Proof.
  intros env Hnow Hreject. rewrite getTransitions_single.
  rewrite (numericCard_events _ _ Hnow), Hreject. reflexivity.
Qed.

(** The amended example on a host that recognises only the format. *)
Lemma getTransitions_example_witness :
  getCurrentDate (envAt1000 strictHost) = JDate (Fin 1000)
  /\ parseString strictHost "95617583999000" = NaN
  /\ getTransitions (envAt1000 strictHost) [numericCard]
     = Ok [PQ.mkEntry 946684799000 (Some numericCard)].
Proof.
  split; [reflexivity|]. split; [reflexivity|].
  exact (getTransitions_example (envAt1000 strictHost) eq_refl eq_refl).
Defined.

(** C9 at a start date that is no date, on a host that recognises only
    the format. *)
Lemma getEventBanner_malformed_start_witness :
  Date_parse strictHost malformedDate = NaN
  /\ getEventBanner (envAt1000 strictHost) malformedDate
       (JStr "2021-10-11T21:00:00.000Z") exampleBanners
     = "On Demand"%string.
Proof.
  split; [reflexivity|].
  exact (proj2 (proj2 (getEventBanner_malformed_start string
                         (envAt1000 strictHost) malformedDate
                         (JStr "2021-10-11T21:00:00.000Z") exampleBanners
                         eq_refl))).
Defined.

(** ** Further properties of the helpers *)

(** *** Truncation *)

Lemma slice_from_zero {A : Type} (l : list A) (n : Z) :
  0 <= n -> slice l 0 n = firstn (Z.to_nat n) l.
Proof.
  intros Hn. unfold slice. cbv zeta.
  destruct (Z.ltb_spec n 0) as [Hneg|_]; [lia|].
  change (0 <? 0) with false. cbn iota.
  rewrite (Z.min_l 0) by lia. change (Z.to_nat 0) with O. cbn [skipn].
  rewrite Z.sub_0_r.
  destruct (Z.le_gt_cases n (Z.of_nat (List.length l))) as [Hle|Hgt].
  - rewrite Z.min_l by lia. reflexivity.
  - rewrite Z.min_r by lia. rewrite Nat2Z.id.
    rewrite !firstn_all2; [reflexivity | lia | lia].
Qed.

Lemma string_length_append (s1 s2 : string) :
  String.length (s1 ++ s2) = (String.length s1 + String.length s2)%nat.
Proof. induction s1 as [|c s1 IH]; simpl; [reflexivity | rewrite IH; reflexivity]. Qed.

Lemma string_length_substring0 (n : nat) (s : string) :
  String.length (substring 0 n s) = Nat.min n (String.length s).
Proof.
  revert s. induction n as [|n IH]; intros [|c s]; simpl; try reflexivity.
  rewrite IH. reflexivity.
Qed.

Lemma substring0_append (n : nat) (s t : string) :
  (n <= String.length s)%nat -> substring 0 n (substring 0 n s ++ t) = substring 0 n s.
Proof.
  revert s. induction n as [|n IH]; intros s Hn.
  - destruct s; simpl; destruct t; reflexivity.
  - destruct s as [|c s]; simpl in *; [lia|].
    rewrite IH by lia. reflexivity.
Qed.

(** X1. [truncateList] returns a prefix of the list, and the list itself
    when the limit is negative or not below its length; for a limit of
    zero or more the result has [min(limit, length)] items; truncating
    twice with one limit is truncating once. *)
Theorem truncateList_prefix :
  forall (A : Type) (limit : Z) (l : list A),
    (exists rest, l = truncateList limit l ++ rest)
    /\ (limit < 0 \/ Z.of_nat (List.length l) <= limit -> truncateList limit l = l)
    /\ (0 <= limit ->
        List.length (truncateList limit l) = Nat.min (Z.to_nat limit) (List.length l))
    /\ truncateList limit (truncateList limit l) = truncateList limit l.
Proof.
  intros A limit l. unfold truncateList.
  destruct (Z.ltb_spec limit 0) as [Hneg|Hpos].
  - split; [exists []; rewrite app_nil_r; reflexivity|].
    split; [reflexivity|]. split; [lia | reflexivity].
  - rewrite slice_from_zero by exact Hpos.
    split; [exists (skipn (Z.to_nat limit) l); symmetry; apply firstn_skipn|].
    split; [|split].
    + intros [H|H]; [lia|]. apply firstn_all2. lia.
    + intros _. apply length_firstn.
    + rewrite slice_from_zero by exact Hpos.
      rewrite firstn_firstn, Nat.min_id. reflexivity.
Qed.

(** X2. [truncateString] returns the string itself when it has at most
    [num] characters.  Otherwise, for [num >= 0], it returns the first [num]
    characters followed by three dots, [num + 3] characters in all, which is
    longer than the string when fewer than three characters were cut; for a
    negative [num] it cuts [-num] characters off the end (as [slice] counts
    from the end) and adds the dots. *)
Theorem truncateString_cases :
  forall (str : string) (num : Z),
    let len := Z.of_nat (String.length str) in
    (len <= num -> truncateString str num = str)
    /\ (0 <= num < len ->
        truncateString str num = (substring 0 (Z.to_nat num) str ++ "...")%string
        /\ Z.of_nat (String.length (truncateString str num)) = num + 3
        /\ substring 0 (Z.to_nat num) (truncateString str num)
           = substring 0 (Z.to_nat num) str)
    /\ (num < 0 ->
        truncateString str num
        = (substring 0 (Z.to_nat (len + num)) str ++ "...")%string
        /\ Z.of_nat (String.length (truncateString str num)) = Z.max (len + num) 0 + 3).
Proof.
  intros str num len. unfold truncateString, String_slice0. fold len.
  split; [|split].
  - intros H. destruct (Z.leb_spec len num); [reflexivity | lia].
  - intros [H0 Hlt].
    destruct (Z.leb_spec len num); [lia|].
    destruct (Z.ltb_spec num 0); [lia|].
    rewrite Z.min_l by lia.
    split; [reflexivity|]. split.
    + rewrite string_length_append, string_length_substring0.
      change (String.length "...") with 3%nat. unfold len in *. lia.
    + apply substring0_append. unfold len in *. lia.
  - intros Hneg.
    destruct (Z.leb_spec len num); [unfold len in *; lia|].
    destruct (Z.ltb_spec num 0); [|lia].
    assert (Hto : Z.to_nat (Z.max (len + num) 0) = Z.to_nat (len + num)) by lia.
    rewrite Hto. split; [reflexivity|].
    rewrite string_length_append, string_length_substring0.
    change (String.length "...") with 3%nat. unfold len in *. lia.
Qed.

(** *** Chaining *)

Lemma chain_from {A : Type} (args : list (list A)) (acc : list A) :
  fold_left (fun a b => a ++ b) args acc = acc ++ List.concat args.
Proof.
  revert acc. induction args as [|l args IH]; intros acc; simpl.
  - rewrite app_nil_r. reflexivity.
  - rewrite IH, app_assoc. reflexivity.
Qed.

Lemma chain_is_concat {A : Type} (args : list (list A)) :
  chainFromIterable args = List.concat args.
Proof. unfold chainFromIterable, chain. apply (chain_from args []). Qed.

(** X3. [chain] concatenates its arguments in order: chaining two groups
    of arrays is chaining each and appending the results, and an element is
    in the result exactly when it is in one of the arrays. *)
Theorem chain_concat :
  forall (A : Type) (args more : list (list A)),
    chain args = List.concat args
    /\ chain (args ++ more) = chain args ++ chain more
    /\ (forall x, In x (chain args) <-> exists l, In l args /\ In x l)
    /\ chainFromIterable args = chain args.
Proof.
  intros A args more.
  assert (H : forall a : list (list A), chain a = List.concat a).
  { intros a. unfold chain. apply (chain_from a []). }
  split; [apply H|]. split; [rewrite !H; apply concat_app|].
  split; [|reflexivity].
  intros x. rewrite H, in_concat. split.
  - intros [l [Hl Hx]]. exists l. auto.
  - intros [l [Hl Hx]]. exists l. auto.
Qed.

(** *** Sets and duplicates *)

Section SetFacts.

Context {K : Type}.
Variable K_eq_dec : forall x y : K, {x = y} + {x <> y}.

Local Abbreviation has := (Set_has K_eq_dec).
Local Abbreviation add := (Set_add K_eq_dec).

Lemma Set_has_In (s : JSSet) (k : K) : has s k = true <-> In k s.
Proof.
  unfold Set_has. destruct (in_dec K_eq_dec k s) as [H|H].
  - split; auto.
  - split; [discriminate | contradiction].
Qed.

Lemma Set_has_not_In (s : JSSet) (k : K) : has s k = false <-> ~ In k s.
Proof.
  rewrite <- Set_has_In. destruct (has s k); split; congruence.
Qed.

Lemma Set_add_In (s : JSSet) (k x : K) : In x (add s k) <-> x = k \/ In x s.
Proof.
  unfold Set_add. destruct (has s k) eqn:Hk.
  - apply Set_has_In in Hk. split; [auto|]. intros [->|H]; assumption.
  - rewrite in_app_iff. simpl. split.
    + intros [H|[H|[]]]; auto.
    + intros [H|H]; auto.
Qed.

Lemma NoDup_snoc (s : list K) (k : K) : NoDup s -> ~ In k s -> NoDup (s ++ [k]).
Proof.
  intros Hs Hk. induction Hs as [|x s Hx Hs IH]; simpl.
  - constructor; [intros [] | constructor].
  - constructor.
    + rewrite in_app_iff. simpl. intros [H|[H|[]]]; [contradiction|].
      apply Hk. left. symmetry. exact H.
    + apply IH. intros H. apply Hk. right. exact H.
Qed.

Lemma Set_add_NoDup (s : JSSet) (k : K) : NoDup s -> NoDup (add s k).
Proof.
  intros Hs. unfold Set_add. destruct (has s k) eqn:Hk; [exact Hs|].
  apply NoDup_snoc; [exact Hs | apply Set_has_not_In, Hk].
Qed.

Section Duplicates.

Context {A : Type}.
Variable key : A -> K.

Local Abbreviation kept := (keptAfter K_eq_dec key).
Local Abbreviation dedup l := (removeDuplicatesByKey K_eq_dec l key).

Lemma removeDuplicates_fold (l : list A) (acc : list A) (ids : JSSet) :
  fst (fold_left (removeDuplicatesStep K_eq_dec key) l (acc, ids))
  = acc ++ kept ids l.
Proof.
  revert acc ids. induction l as [|x l IH]; intros acc ids; simpl.
  - rewrite app_nil_r. reflexivity.
  - destruct (has ids (key x)) eqn:Hx; simpl.
    + apply IH.
    + unfold Set_add. rewrite Hx, IH, <- app_assoc. reflexivity.
Qed.

Lemma removeDuplicates_kept (l : list A) : dedup l = kept [] l.
Proof. unfold removeDuplicatesByKey. apply (removeDuplicates_fold l [] []). Qed.

Lemma kept_ext (s1 s2 : JSSet) (l : list A) :
  (forall k, In k s1 <-> In k s2) -> kept s1 l = kept s2 l.
Proof.
  revert s1 s2. induction l as [|x l IH]; intros s1 s2 Hs; simpl; [reflexivity|].
  assert (Hx : has s1 (key x) = has s2 (key x)).
  { destruct (has s2 (key x)) eqn:H2.
    - apply Set_has_In, Hs, Set_has_In, H2.
    - apply Set_has_not_In. intros H1. apply Set_has_not_In in H2.
      apply H2, Hs, H1. }
  rewrite Hx. destruct (has s2 (key x)); [apply IH, Hs|].
  f_equal. apply IH. intros k. rewrite !in_app_iff, Hs. reflexivity.
Qed.

Lemma kept_In (seen : JSSet) (l : list A) (x : A) :
  In x (kept seen l) -> In x l /\ ~ In (key x) seen.
Proof.
  revert seen. induction l as [|y l IH]; intros seen; simpl; [intros []|].
  destruct (has seen (key y)) eqn:Hy.
  - intros H. destruct (IH _ H). auto.
  - intros [->|H].
    + split; [auto | apply Set_has_not_In, Hy].
    + destruct (IH _ H) as [Hl Hs]. split; [auto|].
      intros Hin. apply Hs, in_app_iff. auto.
Qed.

Lemma kept_NoDup (seen : JSSet) (l : list A) : NoDup (map key (kept seen l)).
Proof.
  revert seen. induction l as [|y l IH]; intros seen; simpl; [constructor|].
  destruct (has seen (key y)); [apply IH|].
  simpl. constructor; [|apply IH].
  intros Hin. apply in_map_iff in Hin. destruct Hin as [x [Hk Hx]].
  apply kept_In in Hx. destruct Hx as [_ Hx]. apply Hx.
  rewrite Hk, in_app_iff. right. left. reflexivity.
Qed.

Lemma kept_keys (seen : JSSet) (l : list A) (x : A) :
  In x l -> In (key x) seen \/ In (key x) (map key (kept seen l)).
Proof.
  revert seen. induction l as [|y l IH]; intros seen; simpl; [intros []|].
  intros [->|Hx].
  - destruct (has seen (key x)) eqn:Hs.
    + left. apply Set_has_In, Hs.
    + right. left. reflexivity.
  - destruct (has seen (key y)) eqn:Hs.
    + apply IH, Hx.
    + destruct (IH (seen ++ [key y]) Hx) as [H|H].
      * apply in_app_iff in H. destruct H as [H|[H|[]]]; [left; exact H|].
        right. left. exact H.
      * right. right. exact H.
Qed.

Lemma kept_snoc_seen (seen : JSSet) (k : K) (l : list A) :
  kept (seen ++ [k]) l
  = kept seen (filter (fun y => if K_eq_dec (key y) k then false else true) l).
Proof.
  revert seen. induction l as [|x l IH]; intros seen; simpl; [reflexivity|].
  destruct (K_eq_dec (key x) k) as [Hk|Hk].
  - assert (Hx : has (seen ++ [k]) (key x) = true).
    { apply Set_has_In, in_app_iff. right. left. symmetry. exact Hk. }
    rewrite Hx. apply IH.
  - simpl. destruct (has seen (key x)) eqn:Hs.
    + assert (Hx : has (seen ++ [k]) (key x) = true).
      { apply Set_has_In, in_app_iff. left. apply Set_has_In, Hs. }
      rewrite Hx. apply IH.
    + assert (Hx : has (seen ++ [k]) (key x) = false).
      { apply Set_has_not_In. rewrite in_app_iff. intros [H|[H|[]]].
        - apply Set_has_not_In in Hs. contradiction.
        - apply Hk. symmetry. exact H. }
      rewrite Hx. f_equal. rewrite <- IH.
      apply kept_ext. intros k'. rewrite !in_app_iff. simpl. tauto.
Qed.

Lemma kept_all (seen : JSSet) (l : list A) :
  NoDup (map key l) -> (forall x, In x l -> ~ In (key x) seen) -> kept seen l = l.
Proof.
  revert seen. induction l as [|x l IH]; intros seen Hnd Hseen; simpl; [reflexivity|].
  inversion Hnd as [|k ks Hx Hrest]; subst.
  assert (Hs : has seen (key x) = false).
  { apply Set_has_not_In, Hseen. left. reflexivity. }
  rewrite Hs. f_equal. apply IH; [exact Hrest|].
  intros y Hy. rewrite in_app_iff. intros [H|[H|[]]].
  - apply (Hseen y); [right; exact Hy | exact H].
  - apply Hx. rewrite H. apply in_map, Hy.
Qed.

(** X4. [removeDuplicatesByKey] returns items of the list, no two with the
    same key, and every key of the list is the key of an item returned. *)
Theorem removeDuplicatesByKey_keys :
  forall l : list A,
    NoDup (map key (removeDuplicatesByKey K_eq_dec l key))
    /\ (forall x, In x (removeDuplicatesByKey K_eq_dec l key) -> In x l)
    /\ (forall x, In x l -> In (key x) (map key (removeDuplicatesByKey K_eq_dec l key))).
Proof.
  intros l. rewrite removeDuplicates_kept.
  split; [apply kept_NoDup|]. split.
  - intros x Hx. apply kept_In in Hx. apply Hx.
  - intros x Hx. destruct (kept_keys [] l x Hx) as [[]|H]. exact H.
Qed.

(** X5. [removeDuplicatesByKey] keeps the first item of each key, in the
    order of the list: the first item is kept, and what follows it is what
    [removeDuplicatesByKey] keeps of the rest of the list without the items
    that have the key of the first. *)
Theorem removeDuplicatesByKey_first :
  forall (x : A) (l : list A),
    removeDuplicatesByKey K_eq_dec [] key = []
    /\ removeDuplicatesByKey K_eq_dec (x :: l) key
       = x :: removeDuplicatesByKey K_eq_dec
            (filter (fun y => if K_eq_dec (key y) (key x) then false else true) l) key.
Proof.
  intros x l. split; [reflexivity|].
  rewrite !removeDuplicates_kept. simpl.
  f_equal. apply (kept_snoc_seen [] (key x) l).
Qed.

(** X6. [removeDuplicatesByKey] changes nothing exactly when the keys of
    the list are all different, and removing duplicates twice is removing
    them once. *)
Theorem removeDuplicatesByKey_fixpoint :
  forall l : list A,
    (removeDuplicatesByKey K_eq_dec l key = l <-> NoDup (map key l))
    /\ removeDuplicatesByKey K_eq_dec (removeDuplicatesByKey K_eq_dec l key) key = removeDuplicatesByKey K_eq_dec l key.
Proof.
  intros l. cbv beta.
  assert (Hfix : forall l0 : list A, NoDup (map key l0) -> removeDuplicatesByKey K_eq_dec l0 key = l0).
  { intros l0 H. rewrite removeDuplicates_kept.
    apply kept_all; [exact H | intros y _ []]. }
  split.
  - split; [|apply Hfix].
    intros H. rewrite <- H, removeDuplicates_kept. apply kept_NoDup.
  - apply Hfix. rewrite removeDuplicates_kept. apply kept_NoDup.
Qed.

End Duplicates.

Lemma isSuperset_incl (superset subset : JSSet) :
  isSuperset K_eq_dec superset subset = true
  <-> forall x, In x subset -> In x superset.
Proof.
  unfold isSuperset. induction subset as [|e rest IH]; simpl.
  - split; [intros _ x [] | reflexivity].
  - destruct (has superset e) eqn:He; simpl.
    + rewrite IH. apply Set_has_In in He. split.
      * intros H x [<-|Hx]; auto.
      * intros H x Hx. apply H. right. exact Hx.
    + apply Set_has_not_In in He. split; [discriminate|].
      intros H. exfalso. apply He, H. left. reflexivity.
Qed.

(** X7. [isSuperset(superset, subset)] is true exactly when every element
    of [subset] is in [superset], and false exactly when some element of
    [subset] is missing from it; so every set is a superset of itself and of
    the empty set, and a superset of a superset is a superset. *)
Theorem isSuperset_spec :
  forall a b c : JSSet,
    (isSuperset K_eq_dec a b = true <-> forall x, In x b -> In x a)
    /\ (isSuperset K_eq_dec a b = false <-> exists x, In x b /\ ~ In x a)
    /\ isSuperset K_eq_dec a a = true
    /\ isSuperset K_eq_dec a [] = true
    /\ (isSuperset K_eq_dec a b = true -> isSuperset K_eq_dec b c = true ->
        isSuperset K_eq_dec a c = true).
Proof.
  intros a b c. split; [apply isSuperset_incl|]. split; [|split; [|split]].
  - split.
    + intros H. unfold isSuperset in H.
      induction b as [|e rest IH]; simpl in H; [discriminate|].
      destruct (has a e) eqn:He; simpl in H.
      * destruct (IH H) as [x [Hx Hna]]. exists x. split; [right|]; assumption.
      * exists e. split; [left; reflexivity | apply Set_has_not_In, He].
    + intros [x [Hx Hna]].
      destruct (isSuperset K_eq_dec a b) eqn:H; [|reflexivity].
      exfalso. apply Hna. apply (proj1 (isSuperset_incl a b) H x Hx).
  - apply isSuperset_incl. auto.
  - reflexivity.
  - rewrite !isSuperset_incl. auto.
Qed.

Lemma intersection_fold (setA setB acc : JSSet) :
  let r := fold_left (fun s elem => if has setA elem then add s elem else s) setB acc in
  (forall x, In x r <-> In x acc \/ (In x setA /\ In x setB))
  /\ (NoDup acc -> NoDup r).
Proof.
  revert acc. induction setB as [|e rest IH]; intros acc; simpl.
  - split; [|auto]. intros x. tauto.
  - destruct (IH (if has setA e then add acc e else acc)) as [Hin Hnd].
    split.
    + intros x. rewrite Hin. destruct (has setA e) eqn:He.
      * rewrite Set_add_In. apply Set_has_In in He. split.
        -- intros [[->|H]|[Ha Hr]]; auto.
        -- intros [H|[Ha [<-|Hr]]]; auto.
      * apply Set_has_not_In in He. split.
        -- intros [H|[Ha Hr]]; auto.
        -- intros [H|[Ha [<-|Hr]]]; auto. contradiction.
    + intros Hacc. apply Hnd. destruct (has setA e); [apply Set_add_NoDup|]; exact Hacc.
Qed.

Lemma intersection_all (setA setB acc : JSSet) :
  (forall x, In x setB -> In x setA) -> NoDup (acc ++ setB) ->
  fold_left (fun s elem => if has setA elem then add s elem else s) setB acc
  = acc ++ setB.
Proof.
  revert acc. induction setB as [|e rest IH]; intros acc Hsub Hnd; simpl.
  - rewrite app_nil_r. reflexivity.
  - assert (He : has setA e = true) by (apply Set_has_In, Hsub; left; reflexivity).
    assert (Hacc : has acc e = false).
    { apply Set_has_not_In. intros H.
      apply NoDup_remove_2 in Hnd. apply Hnd, in_app_iff. left. exact H. }
    rewrite He. unfold Set_add. rewrite Hacc.
    rewrite IH.
    + rewrite <- app_assoc. reflexivity.
    + intros x Hx. apply Hsub. right. exact Hx.
    + rewrite <- app_assoc. exact Hnd.
Qed.

(** X8. [intersection(setA, setB)] holds exactly the elements that are in
    both sets, each once; it is empty exactly when the sets share nothing,
    and both sets are supersets of it. *)
Theorem intersection_spec :
  forall setA setB : JSSet,
    (forall x, In x (intersection K_eq_dec setA setB) <-> In x setA /\ In x setB)
    /\ NoDup (intersection K_eq_dec setA setB)
    /\ (intersection K_eq_dec setA setB = []
        <-> forall x, In x setA -> ~ In x setB)
    /\ isSuperset K_eq_dec setA (intersection K_eq_dec setA setB) = true
    /\ isSuperset K_eq_dec setB (intersection K_eq_dec setA setB) = true.
Proof.
  intros setA setB.
  destruct (intersection_fold setA setB []) as [Hin Hnd].
  fold (intersection K_eq_dec setA setB) in Hin, Hnd.
  assert (Hmem : forall x, In x (intersection K_eq_dec setA setB)
                           <-> In x setA /\ In x setB).
  { intros x. rewrite Hin. simpl. tauto. }
  split; [exact Hmem|]. split; [apply Hnd; constructor|]. split; [|split].
  - split.
    + intros Hnil x Ha Hb.
      assert (H : In x (intersection K_eq_dec setA setB)) by (apply Hmem; auto).
      rewrite Hnil in H. destruct H.
    + intros Hdis. destruct (intersection K_eq_dec setA setB) as [|x r] eqn:E;
        [reflexivity|].
      exfalso. destruct (proj1 (Hmem x) (or_introl eq_refl)) as [Ha Hb].
      exact (Hdis x Ha Hb).
  - apply isSuperset_incl. intros x Hx. apply Hmem, Hx.
  - apply isSuperset_incl. intros x Hx. apply Hmem, Hx.
Qed.

(** X9. When [setA] is a superset of [setB], their intersection is [setB]
    itself, with its elements in the same order. *)
Theorem intersection_of_subset :
  forall setA setB : JSSet,
    NoDup setB ->
    isSuperset K_eq_dec setA setB = true ->
    intersection K_eq_dec setA setB = setB.
Proof.
  intros setA setB Hnd Hsup. unfold intersection.
  apply (intersection_all setA setB []); [apply isSuperset_incl, Hsup | exact Hnd].
Qed.

End SetFacts.

(** X9 on two sets of card ids. *)
Lemma intersection_of_subset_witness :
  NoDup [2; 5]
  /\ isSuperset Z.eq_dec [1; 2; 3; 5] [2; 5] = true
  /\ intersection Z.eq_dec [1; 2; 3; 5] [2; 5] = [2; 5].
Proof.
  assert (Hnd : NoDup [2; 5]).
  { constructor; [intros [H|[]]; discriminate H|].
    constructor; [intros []|constructor]. }
  split; [exact Hnd|]. split; [reflexivity|].
  exact (intersection_of_subset Z.eq_dec [1; 2; 3; 5] [2; 5] Hnd eq_refl).
Defined.

(** *** Filters *)

Lemma getSelectedItemsCount_pos (l : list filterItem) :
  (0 < getSelectedItemsCount l)%nat
  <-> exists item, In item l /\ truthy (selected item) = true.
Proof.
  unfold getSelectedItemsCount. induction l as [|x l IH]; simpl.
  - split; [lia | intros [item [[] _]]].
  - destruct (truthy (selected x)) eqn:Hx; simpl.
    + split; [|lia]. intros _. exists x. auto.
    + rewrite IH. split.
      * intros [item [Hin Hsel]]. exists item. auto.
      * intros [item [[->|Hin] Hsel]]; [congruence|]. exists item. auto.
Qed.

(** X10. [isAtleastOneFilterSelected] is true exactly when some item of
    some filter has a truthy [selected], that is when
    [getSelectedItemsCount] is above zero for the items of some filter; with
    no filter, or filters without items, it is false. *)
Theorem isAtleastOneFilterSelected_spec :
  forall filters : list filterGroup,
    (isAtleastOneFilterSelected filters = true
     <-> exists f item, In f filters /\ In item (items f)
                        /\ truthy (selected item) = true)
    /\ (isAtleastOneFilterSelected filters = true
        <-> exists f, In f filters /\ (0 < getSelectedItemsCount (items f))%nat)
    /\ (isAtleastOneFilterSelected filters = false
        <-> forall f, In f filters -> getSelectedItemsCount (items f) = 0%nat).
Proof.
  intros filters.
  assert (H1 : isAtleastOneFilterSelected filters = true
               <-> exists f item, In f filters /\ In item (items f)
                                  /\ truthy (selected item) = true).
  { unfold isAtleastOneFilterSelected. rewrite existsb_exists. split.
    - intros [item [Hin Hsel]].
      rewrite chain_is_concat, in_concat in Hin.
      destruct Hin as [l [Hl Hitem]]. apply in_map_iff in Hl.
      destruct Hl as [f [<- Hf]]. exists f, item. auto.
    - intros (f & item & Hf & Hitem & Hsel). exists item. split; [|exact Hsel].
      rewrite chain_is_concat, in_concat.
      exists (items f). split; [apply in_map, Hf | exact Hitem]. }
  assert (H2 : isAtleastOneFilterSelected filters = true
               <-> exists f, In f filters /\ (0 < getSelectedItemsCount (items f))%nat).
  { rewrite H1. split.
    - intros (f & item & Hf & Hitem & Hsel). exists f. split; [exact Hf|].
      apply getSelectedItemsCount_pos. exists item. auto.
    - intros (f & Hf & Hpos). apply getSelectedItemsCount_pos in Hpos.
      destruct Hpos as [item [Hitem Hsel]]. exists f, item. auto. }
  split; [exact H1|]. split; [exact H2|].
  split.
  - intros Hfalse f Hf.
    destruct (getSelectedItemsCount (items f)) eqn:E; [reflexivity|].
    assert (Htrue : isAtleastOneFilterSelected filters = true).
    { apply H2. exists f. split; [exact Hf | lia]. }
    congruence.
  - intros Hall. apply not_true_is_false. intros E.
    apply H2 in E. destruct E as (f & Hf & Hpos). rewrite (Hall f Hf) in Hpos. lia.
Qed.

(** *** Ranges *)





(** *** Pages *)


(** X13. For a current page between 1 and [totalPages], the page numbers
    [getPageStartEnd] returns enclose it: [start <= currentPageNumber <=
    end]. *)
Theorem getPageStartEnd_encloses :
  forall currentPageNumber pageCount totalPages : Z,
    0 <= pageCount ->
    1 <= currentPageNumber <= totalPages ->
    fst (getPageStartEnd currentPageNumber pageCount totalPages) <= currentPageNumber
    /\ currentPageNumber <= snd (getPageStartEnd currentPageNumber pageCount totalPages).
Proof.
  intros c P T HP Hc. unfold getPageStartEnd.
  pose proof (Z.div_mod P 2 ltac:(lia)) as Hdiv.
  pose proof (Z.mod_pos_bound P 2 ltac:(lia)) as Hmod.
  destruct (Z.leb_spec T (P + 1)); cbn [fst snd]; lia.
Qed.

(** X13 on page 7 of 20, with 5 page numbers to show. *)
Lemma getPageStartEnd_encloses_witness :
  0 <= 5 /\ 1 <= 7 <= 20
  /\ fst (getPageStartEnd 7 5 20) <= 7 /\ 7 <= snd (getPageStartEnd 7 5 20).
Proof.
  assert (H1 : 0 <= 5) by lia. assert (H2 : 1 <= 7 <= 20) by lia.
  split; [exact H1|]. split; [exact H2|].
  exact (getPageStartEnd_encloses 7 5 20 H1 H2).
Defined.




(** *** The queue of transitions *)

Lemma cardEvents_start_In h now c c0 (p : num) :
  In (Some c0, p) (cardEvents h now c)
  <-> c0 = c
      /\ truthy_num (startPriority h now c) && ngt (startPriority h now c) (Fin 0) = true
      /\ p = startPriority h now c.
Proof.
  unfold cardEvents. rewrite in_app_iff. split.
  - intros [H|H].
    + destruct (truthy_num (startPriority h now c)
                && ngt (startPriority h now c) (Fin 0)); simpl in H.
      * destruct H as [H|[]]. injection H as <- <-. auto.
      * destruct H.
    + destruct (truthy (endDate c) && ngt (endPriority h now c) (Fin 0)); simpl in H.
      * destruct H as [H|[]]. discriminate H.
      * destruct H.
  - intros (-> & Hdue & ->). left. rewrite Hdue. left. reflexivity.
Qed.

Lemma enqueueCalls_length h now cards :
  (List.length (enqueueCalls h now cards) <= 2 * List.length cards)%nat.
Proof.
  unfold enqueueCalls. induction cards as [|c cards IH]; simpl; [lia|].
  rewrite length_app.
  assert (Hc : (List.length (cardEvents h now c) <= 2)%nat).
  { unfold cardEvents. rewrite length_app.
    destruct (truthy_num _ && ngt _ _); destruct (truthy _ && ngt _ _); simpl; lia. }
  lia.
Qed.

(** X16. The queue that [getTransitions] returns holds a start event for
    an item, with priority [p], exactly when the item is in the collection
    and [Date.parse(item.startDate) - now] is [p] and [p > 0]; the event
    carries the item itself.  The queue of an empty collection is empty, and
    a queue never holds more than two events per item. *)
Theorem getTransitions_start_events :
  forall (env : Env) (cards : list card),
    let h := host env in
    let now := valueOf (getCurrentDate env) in
    exists q, getTransitions env cards = Ok q
      /\ (forall (p : Z) (c : card),
            In (PQ.mkEntry p (Some c)) q
            <-> In c cards /\ nsub (Date_parse h (startDate c)) now = Fin p /\ 0 < p)
      /\ (PQ.size q <= 2 * List.length cards)%nat
      /\ (cards = [] -> q = []).
Proof.
  intros env cards h now.
  destruct (getTransitions_queue env cards) as (q & Hq & Hperm & _).
  exists q. split; [exact Hq|]. split; [|split].
  - intros p c. split.
    + intros Hin.
      apply (Permutation_in _ Hperm), callEntries_In in Hin. simpl in Hin.
      unfold enqueueCalls in Hin. apply in_flat_map in Hin.
      destruct Hin as [c' [Hc Hev]].
      apply cardEvents_start_In in Hev. destruct Hev as (-> & Hdue & Hp).
      apply andb_true_iff in Hdue. destruct Hdue as [_ Hgt].
      apply ngt_zero_pos in Hgt. destruct Hgt as [z [Hz Hz0]].
      rewrite Hz in Hp. injection Hp as ->.
      split; [exact Hc|]. split; [exact Hz | exact Hz0].
    + intros (Hc & Hp & Hp0).
      apply (Permutation_in _ (Permutation_sym Hperm)), callEntries_In. simpl.
      unfold enqueueCalls. apply in_flat_map. exists c. split; [exact Hc|].
      apply cardEvents_start_In. unfold startPriority. fold h. fold now.
      rewrite Hp. split; [reflexivity|]. split; [|reflexivity].
      simpl. apply andb_true_iff. split.
      * destruct (Z.eqb_spec p 0); [lia | reflexivity].
      * unfold ngt. simpl. apply Z.ltb_lt. exact Hp0.
  - unfold PQ.size. rewrite (Permutation_length Hperm).
    rewrite callEntries_length by apply enqueueCalls_positive.
    apply enqueueCalls_length.
  - intros ->. unfold getTransitions in Hq. simpl in Hq. injection Hq as <-. reflexivity.
Qed.

Lemma sorted_perm_unique (l1 l2 : list Z) :
  StronglySorted Z.le l1 -> StronglySorted Z.le l2 -> Permutation l1 l2 -> l1 = l2.
Proof.
  revert l2. induction l1 as [|x l1 IH]; intros l2 H1 H2 Hperm.
  - apply Permutation_nil in Hperm. symmetry. exact Hperm.
  - destruct l2 as [|y l2].
    + apply Permutation_sym, Permutation_nil in Hperm. discriminate Hperm.
    + inversion H1 as [|? ? Hs1 Hx]; subst. inversion H2 as [|? ? Hs2 Hy]; subst.
      rewrite Forall_forall in Hx, Hy.
      assert (Hxy : x = y).
      { assert (Hin1 : In y (x :: l1)).
        { apply (Permutation_in _ (Permutation_sym Hperm)). left. reflexivity. }
        assert (Hin2 : In x (y :: l2)).
        { apply (Permutation_in _ Hperm). left. reflexivity. }
        destruct Hin1 as [H|Hin1]; [exact H|].
        destruct Hin2 as [H|Hin2]; [symmetry; exact H|].
        specialize (Hx _ Hin1). specialize (Hy _ Hin2). lia. }
      subst y. f_equal. apply IH; [assumption | assumption|].
      apply (Permutation_cons_inv Hperm).
Qed.

Lemma enqueueCalls_perm h now cards cards' :
  Permutation cards cards' ->
  Permutation (enqueueCalls h now cards) (enqueueCalls h now cards').
Proof.
  unfold enqueueCalls. induction 1 as [|c l l' _ IH|c c' l|l l' l'' _ IH1 _ IH2]; simpl.
  - apply perm_nil.
  - apply Permutation_app_head, IH.
  - rewrite !app_assoc. apply Permutation_app_tail, Permutation_app_comm.
  - exact (perm_trans IH1 IH2).
Qed.

Lemma callEntries_perm calls calls' :
  Permutation calls calls' -> Permutation (callEntries calls) (callEntries calls').
Proof.
  unfold callEntries. induction 1 as [|c l l' _ IH|c c' l|l l' l'' _ IH1 _ IH2]; simpl.
  - apply perm_nil.
  - apply Permutation_app_head, IH.
  - rewrite !app_assoc. apply Permutation_app_tail, Permutation_app_comm.
  - exact (perm_trans IH1 IH2).
Qed.

(** X17. The order of the items does not matter to the queue: for two
    collections with the same items in another order, [getTransitions]
    returns queues with the same events, and popping them gives the same
    sequence of priorities. *)
Theorem getTransitions_order_independent :
  forall (env : Env) (cards cards' : list card),
    Permutation cards cards' ->
    exists q q',
      getTransitions env cards = Ok q
      /\ getTransitions env cards' = Ok q'
      /\ Permutation q q'
      /\ map PQ.priority (PQ.drain q) = map PQ.priority (PQ.drain q').
Proof.
  intros env cards cards' Hcards.
  destruct (getTransitions_queue env cards) as (q & Hq & Hperm & Hasc).
  destruct (getTransitions_queue env cards') as (q' & Hq' & Hperm' & Hasc').
  exists q, q'. split; [exact Hq|]. split; [exact Hq'|].
  assert (Hqq : Permutation q q').
  { eapply perm_trans; [exact Hperm|].
    eapply perm_trans; [|apply Permutation_sym, Hperm'].
    apply callEntries_perm, enqueueCalls_perm, Hcards. }
  split; [exact Hqq|].
  rewrite !PQFacts.drain_all.
  apply sorted_perm_unique; [exact Hasc | exact Hasc'|].
  apply Permutation_map, Hqq.
Qed.

(** X17 on two items in the two orders. *)
Lemma getTransitions_order_independent_witness :
  Permutation [isoCard; numericCard] [numericCard; isoCard]
  /\ exists q q',
       getTransitions (envAt1000 strictHost) [isoCard; numericCard] = Ok q
       /\ getTransitions (envAt1000 strictHost) [numericCard; isoCard] = Ok q'
       /\ Permutation q q'
       /\ map PQ.priority (PQ.drain q) = map PQ.priority (PQ.drain q').
Proof.
  assert (H : Permutation [isoCard; numericCard] [numericCard; isoCard])
    by apply perm_swap.
  split; [exact H|].
  exact (getTransitions_order_independent (envAt1000 strictHost) _ _ H).
Defined.

(** *** The clock *)

Lemma afterTicks_fields (n : nat) (env : Env) :
  host (afterTicks n env) = host env
  /\ search (afterTicks n env) = search env
  /\ wallClock (afterTicks n env) = wallClock env
  /\ differential (afterTicks n env) = differential env + 1000 * Z.of_nat n.
Proof.
  induction n as [|n (Hh & Hs & Hw & Hd)].
  - simpl. repeat split; lia.
  - unfold afterTicks in *. rewrite Nat.iter_succ.
    set (e := Nat.iter n incrementDifferential env) in *.
    unfold incrementDifferential. cbn [host search wallClock differential].
    repeat split; try assumption. rewrite Hd. lia.
Qed.

(** X18. Each tick of the timer moves the clock of a page opened with a
    [servertime] on by 1000 ms: after [n] ticks [getCurrentDate] is
    [new Date(servertime + differential + 1000 n)].  A page without a
    [servertime] (or with one that reads as zero or as no number) is not
    moved by the ticks: its clock stays the wall clock. *)
Theorem getCurrentDate_after_ticks :
  forall (env : Env) (n : nat),
    let servertime := parseInt (URLSearchParams_get (search env) "servertime") in
    (forall z, servertime = Fin z -> z <> 0 ->
       getCurrentDate (afterTicks n env)
       = newDate (Fin (z + differential env + 1000 * Z.of_nat n)))
    /\ (servertime = NaN \/ servertime = Fin 0 ->
        getCurrentDate (afterTicks n env) = JDate (Fin (wallClock env))).
Proof.
  intros env n servertime.
  destruct (afterTicks_fields n env) as (_ & Hs & Hw & Hd).
  unfold getCurrentDate. rewrite Hs, Hw, Hd. fold servertime. split.
  - intros z Hz Hz0. rewrite Hz. simpl.
    destruct (Z.eqb_spec z 0) as [->|_]; [contradiction Hz0; reflexivity|].
    simpl. rewrite Z.add_assoc. reflexivity.
  - intros [H|H]; rewrite H; reflexivity.
Qed.

(** *** The double parse of the end date *)

Lemma parseString_iso h (s : string) (t : Z) :
  isoParse s = Some t -> parseString h s = timeClip (Fin t).
Proof. intros H. unfold parseString. rewrite H. reflexivity. Qed.

Lemma yearsParseFrom_all (count : nat) :
  forall lo d, yearsParseFrom lo count = true ->
    lo <= d < lo + Z.of_nat count -> yearParses d = true.
Proof.
  induction count as [|count IH]; intros lo d Hall Hd; [lia|].
  simpl in Hall. apply andb_true_iff in Hall. destruct Hall as [Hlo Hrest].
  destruct (Z.eq_dec d lo) as [->|Hne]; [exact Hlo|].
  apply (IH (lo + 1)); [exact Hrest | lia].
Qed.

Lemma years_parse_checked : yearsParseFrom 1000 (Z.to_nat 9000) = true.
Proof. vm_compute. reflexivity. Qed.

Lemma Date_parse_year h (d : Z) :
  1000 <= d <= 9999 ->
  Date_parse h (JNum (Fin d)) = Fin (dayFromYear d * msPerDay).
Proof.
  intros Hd.
  assert (Hall : yearParses d = true).
  { apply (yearsParseFrom_all _ _ _ years_parse_checked). lia. }
  unfold yearParses in Hall.
  change (Date_parse strictHost (JNum (Fin d)))
    with (parseString strictHost (numToString (Fin d))) in Hall.
  change (Date_parse h (JNum (Fin d))) with (parseString h (numToString (Fin d))).
  unfold parseString in *.
  destruct (isoParse (numToString (Fin d))) as [t|].
  - destruct (timeClip (Fin t)) as [|t']; [discriminate Hall|].
    apply Z.eqb_eq in Hall. rewrite Hall. reflexivity.
  - simpl in Hall. discriminate Hall.
Qed.

(** X19. When the end of an item is between 1000 ms and 9999 ms after the
    current time, the double parse reads that difference as a year: the
    priority of the end event is the time value of the first instant of the
    year [d], not [d].  So an item whose end is 1971 ms to 9999 ms ahead
    gets an end event with that priority, of a year and more, and an item
    whose end is 1000 ms to 1970 ms ahead gets none; this holds on every
    host. *)
Theorem getTransitions_end_priority_year :
  forall (env : Env) (c : card) (d : Z),
    let h := host env in
    let now := getCurrentDate env in
    nsub (Date_parse h (endDate c)) (valueOf now) = Fin d ->
    1000 <= d <= 9999 ->
    endPriority h now c = Fin (dayFromYear d * msPerDay)
    /\ (d <= 1970 -> endEventDue h now c = false)
    /\ (1971 <= d -> truthy (endDate c) = true ->
        31536000000 <= dayFromYear d * msPerDay
        /\ forall cards, In c cards ->
             exists q, getTransitions env cards = Ok q
                       /\ In (PQ.mkEntry (dayFromYear d * msPerDay) None) q).
Proof.
  intros env c d h now Hd Hrange.
  assert (Hprio : endPriority h now c = Fin (dayFromYear d * msPerDay)).
  { unfold endPriority. rewrite Hd. apply Date_parse_year, Hrange. }
  assert (Hdue : endEventDue h now c
                 = truthy (endDate c) && (0 <? dayFromYear d * msPerDay)).
  { unfold endEventDue. fold (endPriority h now c). rewrite Hprio. reflexivity. }
  assert (Hmono : 1971 <= d -> 31536000000 <= dayFromYear d * msPerDay).
  { intros H. unfold dayFromYear, msPerDay.
    pose proof (Z.div_mod (d - 1969) 4 ltac:(lia)).
    pose proof (Z.mod_pos_bound (d - 1969) 4 ltac:(lia)).
    pose proof (Z.div_mod (d - 1901) 100 ltac:(lia)).
    pose proof (Z.mod_pos_bound (d - 1901) 100 ltac:(lia)).
    pose proof (Z.div_mod (d - 1601) 400 ltac:(lia)).
    pose proof (Z.mod_pos_bound (d - 1601) 400 ltac:(lia)).
    lia. }
  split; [exact Hprio|]. split.
  - intros Hle. rewrite Hdue.
    assert (Hneg : dayFromYear d * msPerDay <= 0).
    { unfold dayFromYear, msPerDay.
      pose proof (Z.div_mod (d - 1969) 4 ltac:(lia)).
      pose proof (Z.mod_pos_bound (d - 1969) 4 ltac:(lia)).
      pose proof (Z.div_mod (d - 1901) 100 ltac:(lia)).
      pose proof (Z.mod_pos_bound (d - 1901) 100 ltac:(lia)).
      pose proof (Z.div_mod (d - 1601) 400 ltac:(lia)).
      pose proof (Z.mod_pos_bound (d - 1601) 400 ltac:(lia)).
      lia. }
    destruct (Z.ltb_spec 0 (dayFromYear d * msPerDay)); [lia|].
    apply andb_false_r.
  - intros Hge Htruthy. split; [apply Hmono, Hge|].
    intros cards Hc.
    destruct (getTransitions_queue env cards) as (q & Hq & Hperm & _).
    exists q. split; [exact Hq|].
    apply (Permutation_in _ (Permutation_sym Hperm)), callEntries_In. simpl.
    unfold enqueueCalls. apply in_flat_map. exists c. split; [exact Hc|].
    apply cardEvents_end_In. fold h. fold now. rewrite Hdue, Htruthy, Hprio.
    split; [|reflexivity]. simpl. apply Z.ltb_lt. specialize (Hmono Hge). lia.
Qed.

(** X19 on an item that ends 4000 ms after the current time. *)
Lemma getTransitions_end_priority_year_witness :
  nsub (Date_parse strictHost (endDate isoCard))
       (valueOf (getCurrentDate (envAt1000 strictHost))) = Fin 4000
  /\ 1000 <= 4000 <= 9999
  /\ endPriority strictHost (getCurrentDate (envAt1000 strictHost)) isoCard
     = Fin (dayFromYear 4000 * msPerDay).
Proof.
  assert (H1 : nsub (Date_parse strictHost (endDate isoCard))
                    (valueOf (getCurrentDate (envAt1000 strictHost))) = Fin 4000)
    by reflexivity.
  assert (H2 : 1000 <= 4000 <= 9999) by lia.
  split; [exact H1|]. split; [exact H2|].
  exact (proj1 (getTransitions_end_priority_year (envAt1000 strictHost) isoCard 4000 H1 H2)).
Defined.

(** *** Paths into objects *)

Lemma string_app_nil_r (s : string) : (s ++ "")%string = s.
Proof. induction s as [|c s IH]; simpl; [reflexivity | rewrite IH; reflexivity]. Qed.

Lemma string_app_assoc (a b c : string) :
  ((a ++ b) ++ c)%string = (a ++ (b ++ c))%string.
Proof. induction a as [|x a IH]; simpl; [reflexivity | rewrite IH; reflexivity]. Qed.

Lemma split_dot_from_chunk (current chunk : string) :
  noDot chunk = true -> split_dot_from current chunk = [(current ++ chunk)%string].
Proof.
  revert current. induction chunk as [|c chunk IH]; intros current Hc; simpl in *.
  - rewrite string_app_nil_r. reflexivity.
  - apply andb_true_iff in Hc. destruct Hc as [Hc Hrest].
    apply negb_true_iff in Hc. rewrite Hc, IH by exact Hrest.
    rewrite string_app_assoc. reflexivity.
Qed.

Lemma split_dot_from_cons (current chunk rest : string) :
  noDot chunk = true ->
  split_dot_from current (chunk ++ String "." rest)
  = (current ++ chunk)%string :: split_dot_from "" rest.
Proof.
  revert current. induction chunk as [|c chunk IH]; intros current Hc; simpl in *.
  - rewrite string_app_nil_r. reflexivity.
  - apply andb_true_iff in Hc. destruct Hc as [Hc Hrest].
    apply negb_true_iff in Hc. rewrite Hc, IH by exact Hrest.
    rewrite string_app_assoc. reflexivity.
Qed.

Lemma split_dot_chunk (chunk : string) :
  noDot chunk = true -> split_dot chunk = [chunk].
Proof. intros H. unfold split_dot. rewrite split_dot_from_chunk by exact H. reflexivity. Qed.

Lemma split_dot_cons (chunk rest : string) :
  noDot chunk = true ->
  split_dot (chunk ++ String "." rest) = chunk :: split_dot rest.
Proof. intros H. unfold split_dot. rewrite split_dot_from_cons by exact H. reflexivity. Qed.

Lemma split_dot_from_nonempty (current s : string) : split_dot_from current s <> [].
Proof.
  revert current. induction s as [|c s IH]; intros current; simpl.
  - discriminate.
  - destruct (Ascii.eqb c "."); [discriminate | apply IH].
Qed.

Lemma obj_has_get props key :
  obj_has props key = match obj_get props key with Some _ => true | None => false end.
Proof. reflexivity. Qed.

Lemma getByPath_loop_step props chunk rest d :
  obj_has props "hasOwnProperty" = false ->
  getByPath_loop (VObj props) (chunk :: rest) d
  = match obj_get props chunk with
    | Some v => getByPath_loop v rest d
    | None => Ok d
    end.
Proof.
  intros Hvis. cbn [getByPath_loop notNull hasOwnProperty]. rewrite Hvis.
  cbn [bind]. unfold obj_has, getProperty. cbn [ownProperty].
  destruct (obj_get props chunk); reflexivity.
Qed.

(** X20. What [getByPath] finds on a plain object.  A name that is an own
    property gives the value stored under it, also when that value is
    [undefined], [null] or falsy, and a longer path goes on from that value;
    a name that is not an own property gives [defaultValue], and so does a
    path that goes on through [null] or [undefined]; a falsy object or an
    empty path gives [defaultValue].  On an object that has an own property
    named [hasOwnProperty] the call throws for every path that is not
    empty. *)
Theorem getByPath_lookup :
  forall (props : list (string * jv)) (key rest : string) (defaultValue : jv),
    noDot key = true ->
    (obj_has props "hasOwnProperty" = false ->
     (key <> EmptyString ->
      getByPath (VObj props) key defaultValue
      = Ok match obj_get props key with
           | Some v => v
           | None => defaultValue
           end)
     /\ getByPath (VObj props) (key ++ String "." rest) defaultValue
        = match obj_get props key with
          | Some v => getByPath_loop v (split_dot rest) defaultValue
          | None => Ok defaultValue
          end
     /\ (obj_get props key = Some VNull \/ obj_get props key = Some VUndefined ->
         getByPath (VObj props) (key ++ String "." rest) defaultValue = Ok defaultValue))
    /\ (obj_has props "hasOwnProperty" = true ->
        forall path, path <> EmptyString ->
          exists msg, getByPath (VObj props) path defaultValue = Throw msg)
    /\ (forall object path,
          truthy_jv object = false \/ path = EmptyString ->
          getByPath object path defaultValue = Ok defaultValue).
Proof.
  intros props key rest d Hkey. split; [|split].
  - intros Hvis.
    assert (Hlong : getByPath (VObj props) (key ++ String "." rest) d
                    = match obj_get props key with
                      | Some v => getByPath_loop v (split_dot rest) d
                      | None => Ok d
                      end).
    { unfold getByPath. simpl truthy_jv. cbn [negb orb].
      assert (Hne : ((key ++ String "." rest) =? "")%string = false).
      { apply String.eqb_neq. destruct key; discriminate. }
      rewrite Hne, split_dot_cons by exact Hkey. cbv zeta.
      apply getByPath_loop_step, Hvis. }
    split; [|split; [exact Hlong|]].
    + intros Hne. unfold getByPath. simpl truthy_jv. cbn [negb orb].
      apply String.eqb_neq in Hne. rewrite Hne, split_dot_chunk by exact Hkey.
      cbv zeta. rewrite getByPath_loop_step by exact Hvis.
      destruct (obj_get props key); reflexivity.
    + intros [H|H]; rewrite Hlong, H; destruct (split_dot rest) eqn:E;
        try reflexivity; exfalso; exact (split_dot_from_nonempty _ _ E).
  - intros Hhidden path Hne. unfold getByPath. simpl truthy_jv. cbn [negb orb].
    apply String.eqb_neq in Hne. rewrite Hne. cbv zeta.
    destruct (split_dot path) as [|c cs] eqn:E;
      [exfalso; exact (split_dot_from_nonempty _ _ E)|].
    cbn [getByPath_loop notNull hasOwnProperty]. rewrite Hhidden.
    eexists. reflexivity.
  - intros object path [H|H]; unfold getByPath.
    + rewrite H. reflexivity.
    + subst path. rewrite orb_true_r. reflexivity.
Qed.

Local Open Scope string_scope.

(** X20 on a configuration object. *)
Lemma getByPath_lookup_witness :
  noDot "pagination" = true
  /\ getByPath (VObj [("pagination", VObj [("enabled", VBool false)])])
       "pagination.enabled" (VBool true)
     = Ok (VBool false).
Proof.
  split; [reflexivity|].
  exact (proj1 (proj2 (proj1 (getByPath_lookup
                                [("pagination", VObj [("enabled", VBool false)])]
                                "pagination" "enabled" (VBool true) eq_refl)
                             eq_refl))).
Defined.

Local Close Scope string_scope.

Lemma obj_get_set_same props key value :
  obj_get (obj_set props key value) key = Some value.
Proof.
  induction props as [|[k v] props IH]; simpl.
  - rewrite String.eqb_refl. reflexivity.
  - destruct (String.eqb k key) eqn:Hk; simpl; rewrite Hk; [reflexivity | exact IH].
Qed.

Lemma obj_get_set_other props key key' value :
  key' <> key -> obj_get (obj_set props key value) key' = obj_get props key'.
Proof.
  intros Hne. induction props as [|[k v] props IH]; simpl.
  - apply String.eqb_neq in Hne. rewrite String.eqb_sym, Hne. reflexivity.
  - destruct (String.eqb k key) eqn:Hk; simpl.
    + apply String.eqb_eq in Hk. subst k.
      assert (H : (key =? key')%string = false)
        by (apply String.eqb_neq; intros H; apply Hne; symmetry; exact H).
      rewrite H. reflexivity.
    + destruct (String.eqb k key'); [reflexivity | exact IH].
Qed.

Lemma firstn_removelast {A : Type} (l : list A) (x : A) :
  firstn (List.length l) (x :: l) = removelast (x :: l).
Proof.
  revert x. induction l as [|y l IH]; intros x; [reflexivity|].
  simpl List.length. cbn [firstn]. rewrite IH. reflexivity.
Qed.

Lemma slice_removelast {A : Type} (l : list A) : slice l 0 (-1) = removelast l.
Proof.
  unfold slice. cbv zeta. change (0 <? 0) with false. change (-1 <? 0) with true.
  cbn iota. rewrite (Z.min_l 0) by lia. change (Z.to_nat 0) with O. cbn [skipn].
  rewrite Z.sub_0_r.
  destruct l as [|x l]; [reflexivity|].
  assert (Hlen : Z.to_nat (Z.max (Z.of_nat (List.length (x :: l)) + -1) 0)
                 = List.length l) by (simpl List.length; lia).
  rewrite Hlen. apply firstn_removelast.
Qed.

Lemma methodsVisible_root props :
  methodsVisible (VObj props) = true -> obj_has props "hasOwnProperty" = false.
Proof.
  simpl. intros H. apply andb_true_iff in H. destruct H as [H _].
  apply negb_true_iff in H. exact H.
Qed.

Lemma methodsVisible_get props key x :
  methodsVisible (VObj props) = true -> obj_get props key = Some x ->
  methodsVisible x = true.
Proof.
  simpl. intros H. apply andb_true_iff in H. destruct H as [_ H].
  induction props as [|[k v] props IH]; simpl; [discriminate|].
  apply andb_true_iff in H. destruct H as [Hv Hrest].
  destruct (String.eqb k key).
  - intros Hx. injection Hx as <-. exact Hv.
  - apply IH, Hrest.
Qed.

Lemma obj_has_set_other props key key' value :
  key' <> key -> obj_has (obj_set props key value) key' = obj_has props key'.
Proof. intros H. unfold obj_has. rewrite obj_get_set_other by exact H. reflexivity. Qed.

Lemma child_visible props chunk :
  (forall c x, obj_get props c = Some (VObj x) -> methodsVisible (VObj x) = true) ->
  methodsVisible
    (VObj match obj_get props chunk with
          | Some (VObj childProps) =>
              if isObject (VObj childProps) then childProps else []
          | _ => []
          end) = true.
Proof.
  intros Hsub.
  destruct (obj_get props chunk) as [[| | | | | |cp]|] eqn:Hget; try reflexivity.
  destruct (isObject (VObj cp)); [|reflexivity].
  apply (Hsub chunk cp Hget).
Qed.

Lemma setByPath_from_get (withoutLast : list string) :
  forall props lastChunk value props' d,
    obj_has props "hasOwnProperty" = false ->
    (forall chunk child, obj_get props chunk = Some (VObj child) ->
                         methodsVisible (VObj child) = true) ->
    ~ In "hasOwnProperty"%string (withoutLast ++ [lastChunk]) ->
    setByPath_from props withoutLast lastChunk value = Some props' ->
    getByPath_loop (VObj props') (withoutLast ++ [lastChunk]) d = Ok value.
Proof.
  induction withoutLast as [|chunk rest IH];
    intros props lastChunk value props' d Hvis Hsub Hnames H; simpl in H.
  - destruct (reachesProto props lastChunk); [discriminate|].
    injection H as <-. cbn [app].
    rewrite getByPath_loop_step.
    + rewrite obj_get_set_same. reflexivity.
    + rewrite obj_has_set_other; [exact Hvis|].
      intros Heq. apply Hnames. left. symmetry. exact Heq.
  - destruct (reachesProto props chunk); [discriminate|].
    pose proof (child_visible props chunk Hsub) as Hcp.
    match type of H with
    | match setByPath_from ?child _ _ _ with _ => _ end = _ =>
        set (childProps := child) in *;
        destruct (setByPath_from childProps rest lastChunk value) as [child'|] eqn:Hchild
    end; [|discriminate].
    injection H as <-. cbn [app].
    rewrite getByPath_loop_step.
    + rewrite obj_get_set_same.
      apply (IH childProps lastChunk value child' d).
      * apply methodsVisible_root, Hcp.
      * intros c x Hx. apply (methodsVisible_get childProps c (VObj x) Hcp Hx).
      * intros Hin. apply Hnames. right. exact Hin.
      * exact Hchild.
    + rewrite obj_has_set_other; [exact Hvis|].
      intros Heq. apply Hnames. left. symmetry. exact Heq.
Qed.

Lemma setByPath_from_total (withoutLast : list string) :
  forall props lastChunk value,
    ~ In "__proto__"%string (withoutLast ++ [lastChunk]) ->
    exists props', setByPath_from props withoutLast lastChunk value = Some props'.
Proof.
  assert (Hreach : forall p name, name <> "__proto__"%string -> reachesProto p name = false).
  { intros p name Hne. unfold reachesProto. apply String.eqb_neq in Hne.
    rewrite Hne. reflexivity. }
  induction withoutLast as [|chunk rest IH]; intros props lastChunk value Hnames; simpl.
  - rewrite Hreach; [eexists; reflexivity|].
    intros ->. apply Hnames. left. reflexivity.
  - rewrite Hreach by (intros ->; apply Hnames; left; reflexivity).
    match goal with
    | |- exists _, match setByPath_from ?child _ _ _ with _ => _ end = _ =>
        destruct (IH child lastChunk value) as [child' Hchild]
    end.
    + intros H. apply Hnames. right. exact H.
    + rewrite Hchild. eexists. reflexivity.
Qed.

(** X21. What [setByPath] has set, [getByPath] gets.  On a plain object,
    with a path that is not empty and has no chunk named [__proto__],
    [setByPath(object, path, value)] returns, and afterwards
    [getByPath(object, path, defaultValue)] returns [value], whatever the
    object held before and whatever the default.  This for an object and a
    path that leave the method [hasOwnProperty] visible: no object inside
    has an own property of that name, and no chunk of the path is that
    name. *)
Theorem setByPath_getByPath :
  forall (props : list (string * jv)) (path : string) (value defaultValue : jv),
    path <> EmptyString ->
    methodsVisible (VObj props) = true ->
    ~ In "hasOwnProperty"%string (split_dot path) ->
    ~ In "__proto__"%string (split_dot path) ->
    exists object',
      setByPath (VObj props) path value = Done object'
      /\ getByPath object' path defaultValue = Ok value.
Proof.
  intros props path value d Hpath Hvis Hnames Hproto.
  pose proof (app_removelast_last EmptyString (split_dot_from_nonempty EmptyString path))
    as Hchunks.
  fold (split_dot path) in Hchunks.
  destruct (setByPath_from_total (removelast (split_dot path)) props
              (last (split_dot path) EmptyString) value) as [props' Hfrom].
  { rewrite <- Hchunks. exact Hproto. }
  exists (VObj props').
  apply String.eqb_neq in Hpath. split.
  - unfold setByPath. simpl truthy_jv. cbn [negb orb]. rewrite Hpath. cbv zeta.
    rewrite slice_removelast, Hfrom. reflexivity.
  - unfold getByPath. simpl truthy_jv. cbn [negb orb]. rewrite Hpath. cbv zeta.
    rewrite Hchunks at 1.
    apply (setByPath_from_get _ props _ value props' d); try exact Hfrom.
    + apply methodsVisible_root, Hvis.
    + intros c x Hx. apply (methodsVisible_get props c (VObj x) Hvis Hx).
    + rewrite <- Hchunks. exact Hnames.
Qed.

Local Open Scope string_scope.

(** X21 on a nested path of an object that holds a string under the first
    name of the path. *)
Lemma setByPath_getByPath_witness :
  "filterPanel.type" <> EmptyString
  /\ methodsVisible (VObj [("filterPanel", VStr "top")]) = true
  /\ ~ In "hasOwnProperty" (split_dot "filterPanel.type")
  /\ ~ In "__proto__" (split_dot "filterPanel.type")
  /\ exists object',
       setByPath (VObj [("filterPanel", VStr "top")]) "filterPanel.type" (VStr "left")
       = Done object'
       /\ getByPath object' "filterPanel.type" VUndefined = Ok (VStr "left").
Proof.
  assert (H1 : "filterPanel.type" <> EmptyString) by discriminate.
  assert (H2 : methodsVisible (VObj [("filterPanel", VStr "top")]) = true) by reflexivity.
  assert (H3 : ~ In "hasOwnProperty" (split_dot "filterPanel.type")).
  { simpl. intros [H|[H|[]]]; discriminate H. }
  assert (H4 : ~ In "__proto__" (split_dot "filterPanel.type")).
  { simpl. intros [H|[H|[]]]; discriminate H. }
  split; [exact H1|]. split; [exact H2|]. split; [exact H3|]. split; [exact H4|].
  exact (setByPath_getByPath [("filterPanel", VStr "top")] "filterPanel.type"
           (VStr "left") VUndefined H1 H2 H3 H4).
Defined.

Local Close Scope string_scope.

Lemma setByPath_from_first (withoutLast : list string) props lastChunk value props' :
  setByPath_from props withoutLast lastChunk value = Some props' ->
  exists x, props' = obj_set props (hd lastChunk withoutLast) x.
Proof.
  destruct withoutLast as [|chunk rest]; simpl; intros H.
  - destruct (reachesProto props lastChunk); [discriminate|].
    injection H as <-. exists value. reflexivity.
  - destruct (reachesProto props chunk); [discriminate|].
    match type of H with
    | match setByPath_from ?child _ _ _ with _ => _ end = _ =>
        destruct (setByPath_from child rest lastChunk value) as [child'|]
    end; [|discriminate].
    injection H as <-. exists (VObj child'). reflexivity.
Qed.

Lemma hd_removelast {A : Type} (l : list A) (d : A) :
  hd (last l d) (removelast l) = hd d l.
Proof. destruct l as [|x [|y l]]; reflexivity. Qed.

(** X22. [setByPath] leaves the other properties of the object alone: a
    path that starts with another name than the path that was set leads
    [getByPath] to the same result after the call as before (the path set
    not starting with the name [hasOwnProperty]). *)
Theorem setByPath_other_paths :
  forall (props : list (string * jv)) (path other : string)
         (value defaultValue object' : jv),
    setByPath (VObj props) path value = Done object' ->
    hd EmptyString (split_dot other) <> hd EmptyString (split_dot path) ->
    hd EmptyString (split_dot path) <> "hasOwnProperty"%string ->
    getByPath object' other defaultValue = getByPath (VObj props) other defaultValue.
Proof.
  intros props path other value d object' Hset Hne Hname.
  unfold setByPath in Hset. simpl in Hset.
  destruct (String.eqb path "") eqn:Hpath; [injection Hset as <-; reflexivity|].
  destruct (setByPath_from props (slice (split_dot path) 0 (-1))
              (last (split_dot path) EmptyString) value) as [props'|] eqn:Hfrom;
    [|discriminate].
  injection Hset as <-.
  rewrite slice_removelast in Hfrom.
  apply setByPath_from_first in Hfrom. destruct Hfrom as [x ->].
  rewrite hd_removelast.
  unfold getByPath. simpl truthy_jv. cbn [negb orb].
  destruct (String.eqb other ""); [reflexivity|]. cbv zeta.
  destruct (split_dot other) as [|c rest] eqn:E;
    [exfalso; exact (split_dot_from_nonempty _ _ E)|].
  cbn [hd] in Hne.
  cbn [getByPath_loop notNull hasOwnProperty].
  rewrite !obj_has_set_other by (first [exact Hne | intros H; apply Hname; symmetry; exact H]).
  destruct (obj_has props "hasOwnProperty"); [reflexivity|]. cbn [bind].
  unfold getProperty. cbn [ownProperty].
  rewrite obj_get_set_other by exact Hne. reflexivity.
Qed.

Local Open Scope string_scope.

(** X22 on two properties of one object. *)
Lemma setByPath_other_paths_witness :
  setByPath (VObj [("sort", VStr "date")]) "filterPanel.type" (VStr "left")
  = Done (VObj [("sort", VStr "date");
                ("filterPanel", VObj [("type", VStr "left")])])
  /\ hd EmptyString (split_dot "sort") <> hd EmptyString (split_dot "filterPanel.type")
  /\ hd EmptyString (split_dot "filterPanel.type") <> "hasOwnProperty"
  /\ getByPath (VObj [("sort", VStr "date");
                      ("filterPanel", VObj [("type", VStr "left")])])
       "sort" VUndefined
     = getByPath (VObj [("sort", VStr "date")]) "sort" VUndefined.
Proof.
  assert (H1 : setByPath (VObj [("sort", VStr "date")]) "filterPanel.type" (VStr "left")
               = Done (VObj [("sort", VStr "date");
                             ("filterPanel", VObj [("type", VStr "left")])]))
    by reflexivity.
  assert (H2 : hd EmptyString (split_dot "sort")
               <> hd EmptyString (split_dot "filterPanel.type"))
    by discriminate.
  assert (H3 : hd EmptyString (split_dot "filterPanel.type") <> "hasOwnProperty")
    by discriminate.
  split; [exact H1|]. split; [exact H2|]. split; [exact H3|].
  exact (setByPath_other_paths _ _ _ _ VUndefined _ H1 H2 H3).
Defined.

Local Close Scope string_scope.

(** X23. What [setByPath] does to the value it passes on its way.  For a
    path of two names [a.k], neither of them [__proto__]: when [object.a] is
    a plain object, [k] is set in it and its other properties stay; when
    [object.a] is anything else (missing, [null], a number, a string, an
    array, or an object with an own [constructor] property) it is replaced
    by a new object that holds [k] alone. *)
Theorem setByPath_through :
  forall (props : list (string * jv)) (a k : string) (value : jv),
    noDot a = true -> noDot k = true ->
    a <> "__proto__"%string -> k <> "__proto__"%string ->
    (forall child,
       obj_get props a = Some (VObj child) -> isObject (VObj child) = true ->
       setByPath (VObj props) (a ++ String "." k) value
       = Done (VObj (obj_set props a (VObj (obj_set child k value)))))
    /\ ((forall x, obj_get props a = Some x -> isObject x = false) ->
        setByPath (VObj props) (a ++ String "." k) value
        = Done (VObj (obj_set props a (VObj [(k, value)])))).
Proof.
  intros props a k value Ha Hk Hpa Hpk.
  assert (Hne : ((a ++ String "." k) =? "")%string = false).
  { apply String.eqb_neq. destruct a; discriminate. }
  assert (Hchunks : split_dot (a ++ String "." k) = [a; k]).
  { rewrite split_dot_cons by exact Ha. rewrite split_dot_chunk by exact Hk. reflexivity. }
  assert (Hra : forall p, reachesProto p a = false).
  { intros p. unfold reachesProto. apply String.eqb_neq in Hpa. rewrite Hpa. reflexivity. }
  assert (Hrk : forall p, reachesProto p k = false).
  { intros p. unfold reachesProto. apply String.eqb_neq in Hpk. rewrite Hpk. reflexivity. }
  split.
  - intros child Hget Hobj. unfold setByPath. simpl truthy_jv. cbn [negb orb].
    rewrite Hne, Hchunks, slice_removelast. cbn [removelast last setByPath_from].
    rewrite Hra, Hget, Hobj, Hrk. reflexivity.
  - intros Hnot. unfold setByPath. simpl truthy_jv. cbn [negb orb].
    rewrite Hne, Hchunks, slice_removelast. cbn [removelast last setByPath_from].
    rewrite Hra.
    assert (Hchild : match obj_get props a with
                     | Some (VObj childProps) =>
                         if isObject (VObj childProps) then childProps else []
                     | _ => []
                     end = []).
    { destruct (obj_get props a) as [[| | | | | |child]|] eqn:Hget; try reflexivity.
      rewrite (Hnot _ eq_refl). reflexivity. }
    rewrite Hchild. cbn [setByPath_from]. rewrite Hrk. reflexivity.
Qed.

Local Open Scope string_scope.

(** X23 on an object whose [filters] is an array. *)
Lemma setByPath_through_witness :
  noDot "filters" = true /\ noDot "type" = true
  /\ "filters" <> "__proto__" /\ "type" <> "__proto__"
  /\ setByPath (VObj [("filters", VArr [VStr "a"; VStr "b"])]) "filters.type" (VStr "left")
     = Done (VObj [("filters", VObj [("type", VStr "left")])]).
Proof.
  assert (H1 : noDot "filters" = true) by reflexivity.
  assert (H2 : noDot "type" = true) by reflexivity.
  assert (H3 : "filters" <> "__proto__") by discriminate.
  assert (H4 : "type" <> "__proto__") by discriminate.
  split; [exact H1|]. split; [exact H2|]. split; [exact H3|]. split; [exact H4|].
  apply (proj2 (setByPath_through [("filters", VArr [VStr "a"; VStr "b"])]
                  "filters" "type" (VStr "left") H1 H2 H3 H4)).
  intros x Hx. injection Hx as <-. reflexivity.
Defined.

Local Close Scope string_scope.

(** *** Mapping an object *)

Lemma obj_set_new props key value :
  ~ In key (map fst props) -> obj_set props key value = props ++ [(key, value)].
Proof.
  induction props as [|[k v] props IH]; simpl; intros Hnot; [reflexivity|].
  destruct (String.eqb_spec k key) as [->|Hne].
  - exfalso. apply Hnot. left. reflexivity.
  - rewrite IH; [reflexivity|]. intros H. apply Hnot. right. exact H.
Qed.

Lemma obj_get_In props key :
  obj_get props key = None <-> ~ In key (map fst props).
Proof.
  induction props as [|[k v] props IH]; simpl.
  - split; [intros _ [] | reflexivity].
  - destruct (String.eqb_spec k key) as [->|Hne].
    + split; [discriminate|]. intros H. exfalso. apply H. left. reflexivity.
    + rewrite IH. split.
      * intros H [H'|H']; [apply Hne, H' | apply H, H'].
      * intros H H'. apply H. right. exact H'.
Qed.

Lemma obj_get_middle done key value rest :
  ~ In key (map fst done) ->
  obj_get (done ++ (key, value) :: rest) key = Some value.
Proof.
  induction done as [|[k v] done IH]; simpl; intros Hnot.
  - rewrite String.eqb_refl. reflexivity.
  - destruct (String.eqb_spec k key) as [->|Hne].
    + exfalso. apply Hnot. left. reflexivity.
    + apply IH. intros H. apply Hnot. right. exact H.
Qed.

Lemma mapObject_fold (func : jv -> jv) (props : list (string * jv)) :
  forall done rest,
    props = done ++ rest ->
    NoDup (map fst props) ->
    ~ In "__proto__"%string (map fst props) ->
    fold_left (fun newObj key =>
                 match newObj with
                 | Some acc =>
                     if reachesProto acc key then None
                     else Some (obj_set acc key
                                  (func (match obj_get props key with
                                         | Some v => v
                                         | None => VUndefined
                                         end)))
                 | None => None
                 end)
              (map fst rest)
              (Some (map (fun kv => (fst kv, func (snd kv))) done))
    = Some (map (fun kv => (fst kv, func (snd kv))) props).
Proof.
  intros done rest. revert done.
  induction rest as [|[k v] rest IH]; intros done Hprops Hnd Hproto.
  - simpl. rewrite app_nil_r in Hprops. subst. reflexivity.
  - cbn [map fst fold_left].
    assert (Hk : ~ In k (map fst done)).
    { subst props. rewrite map_app in Hnd. simpl in Hnd.
      apply NoDup_remove_2 in Hnd. intros H. apply Hnd, in_app_iff. left. exact H. }
    assert (Hreach : reachesProto (map (fun kv => (fst kv, func (snd kv))) done) k = false).
    { unfold reachesProto. destruct (String.eqb_spec k "__proto__") as [->|_]; [|reflexivity].
      exfalso. apply Hproto. subst props. rewrite map_app, in_app_iff. right. left. reflexivity. }
    rewrite Hreach.
    assert (Hget : obj_get props k = Some v).
    { subst props. apply obj_get_middle, Hk. }
    rewrite Hget, obj_set_new.
    + specialize (IH (done ++ [(k, v)])).
      rewrite map_app in IH. apply IH; [|exact Hnd|exact Hproto].
      rewrite <- app_assoc. exact Hprops.
    + rewrite map_map. simpl. exact Hk.
Qed.

(** X24. For a plain object (its property names all different, none of
    them [__proto__]), [mapObject] returns an object with the same property
    names in the same order, each holding [func] of the value it held: a
    lookup in the new object is [func] of the lookup in the old one. *)
Theorem mapObject_values :
  forall (props : list (string * jv)) (func : jv -> jv),
    NoDup (map fst props) ->
    ~ In "__proto__"%string (map fst props) ->
    mapObject props func = Some (map (fun kv => (fst kv, func (snd kv))) props)
    /\ forall newObj, mapObject props func = Some newObj ->
         map fst newObj = map fst props
         /\ forall key, obj_get newObj key = option_map func (obj_get props key).
Proof.
  intros props func Hnd Hproto.
  assert (H : mapObject props func
              = Some (map (fun kv => (fst kv, func (snd kv))) props)).
  { unfold mapObject. apply (mapObject_fold func props [] props eq_refl Hnd Hproto). }
  split; [exact H|]. intros newObj Hnew. rewrite H in Hnew. injection Hnew as <-.
  split.
  - rewrite map_map. reflexivity.
  - intros key. clear. induction props as [|[k v] props IH]; simpl; [reflexivity|].
    destruct (String.eqb k key); [reflexivity | exact IH].
Qed.

Local Open Scope string_scope.

(** X24 on an object of two authored values. *)
Lemma mapObject_values_witness :
  NoDup (map fst [("title", VStr "Card"); ("limit", VStr "8")])
  /\ ~ In "__proto__" (map fst [("title", VStr "Card"); ("limit", VStr "8")])
  /\ mapObject [("title", VStr "Card"); ("limit", VStr "8")] (fun _ => VNull)
     = Some [("title", VNull); ("limit", VNull)].
Proof.
  assert (H1 : NoDup (map fst [("title", VStr "Card"); ("limit", VStr "8")])).
  { simpl. constructor; [intros [H|[]]; discriminate H|].
    constructor; [intros []|constructor]. }
  assert (H2 : ~ In "__proto__" (map fst [("title", VStr "Card"); ("limit", VStr "8")])).
  { simpl. intros [H|[H|[]]]; discriminate H. }
  split; [exact H1|]. split; [exact H2|].
  exact (proj1 (mapObject_values _ (fun _ => VNull) H1 H2)).
Defined.

Local Close Scope string_scope.

(** *** Templates *)

Lemma template_scan_identity (props : string -> option string) (text : string) :
  (forall key, props key = None) ->
  forall pending,
    template_scan props pending text
    = (match pending with
       | None => EmptyString
       | Some key => String "{" key
       end ++ text)%string.
Proof.
  intros Hnone. induction text as [|c rest IH]; intros pending.
  - destruct pending as [key|]; simpl; [rewrite string_app_nil_r|]; reflexivity.
  - destruct pending as [key|]; simpl.
    + destruct (isAz c).
      * rewrite IH. simpl. rewrite string_app_assoc. reflexivity.
      * destruct (Ascii.eqb_spec c "}") as [->|_].
        -- unfold replacer. rewrite Hnone, IH. simpl.
           rewrite string_app_assoc. reflexivity.
        -- destruct (Ascii.eqb_spec c "{") as [->|_]; rewrite IH; reflexivity.
    + destruct (Ascii.eqb_spec c "{") as [->|_]; rewrite IH; reflexivity.
Qed.

Lemma template_scan_plain (props : string -> option string) (pre rest : string) :
  noBrace pre = true ->
  template_scan props None (pre ++ rest) = (pre ++ template_scan props None rest)%string.
Proof.
  induction pre as [|c pre IH]; simpl; intros Hpre; [reflexivity|].
  apply andb_true_iff in Hpre. destruct Hpre as [Hc Hpre].
  apply andb_true_iff in Hc. destruct Hc as [Hopen _].
  apply negb_true_iff in Hopen. rewrite Hopen, IH by exact Hpre. reflexivity.
Qed.

Lemma template_scan_key (props : string -> option string) (key post : string) :
  allAz key = true ->
  forall seen,
    template_scan props (Some seen) (key ++ String "}" post)
    = (replacer props (String "{" ((seen ++ key) ++ "}")) (seen ++ key)
       ++ template_scan props None post)%string.
Proof.
  induction key as [|c key IH]; simpl; intros Hkey seen.
  - rewrite string_app_nil_r. reflexivity.
  - apply andb_true_iff in Hkey. destruct Hkey as [Hc Hkey].
    rewrite Hc, IH by exact Hkey. rewrite !string_app_assoc. reflexivity.
Qed.

Lemma isAz_not_brace (c : ascii) : isAz c = true -> Ascii.eqb c "{" = false /\ Ascii.eqb c "}" = false.
Proof.
  intros H. split; apply Ascii.eqb_neq; intros ->; discriminate H.
Qed.

Lemma template_scan_other (props : string -> option string) (key post : string) :
  noBrace key = true -> allAz key = false ->
  forall seen,
    template_scan props (Some seen) (key ++ String "}" post)
    = (String "{" (seen ++ key) ++ String "}" (template_scan props None post))%string.
Proof.
  induction key as [|c key IH]; simpl; intros Hplain Hkey seen; [discriminate|].
  apply andb_true_iff in Hplain. destruct Hplain as [Hc Hplain].
  apply andb_true_iff in Hc. destruct Hc as [Hopen Hclose].
  apply negb_true_iff in Hopen. apply negb_true_iff in Hclose.
  destruct (isAz c) eqn:Haz; simpl in Hkey.
  - rewrite IH by assumption. simpl. rewrite !string_app_assoc. simpl. reflexivity.
  - rewrite Hclose, Hopen.
    rewrite template_scan_plain by exact Hplain. simpl.
    rewrite !string_app_assoc. simpl. reflexivity.
Qed.

(** [template] looks up in the props only the names that stand between
    braces in the text. *)
Lemma template_scan_agree (props props' : string -> option string) (text : string) :
  forall pending,
    (forall key, In key (placeholders_scan pending text) -> props key = props' key) ->
    template_scan props pending text = template_scan props' pending text.
Proof.
  induction text as [|c rest IH]; intros pending Hsame; [reflexivity|].
  destruct pending as [key|]; cbn [template_scan placeholders_scan] in *.
  - destruct (isAz c); [apply IH, Hsame|].
    destruct (Ascii.eqb c "}").
    + unfold replacer. rewrite (Hsame key (or_introl eq_refl)).
      rewrite (IH None) by (intros k Hk; apply Hsame; right; exact Hk).
      reflexivity.
    + destruct (Ascii.eqb c "{"); rewrite (IH _ Hsame); reflexivity.
  - destruct (Ascii.eqb c "{"); rewrite (IH _ Hsame); reflexivity.
Qed.

Lemma placeholders_scan_plain (pre rest : string) :
  noBrace pre = true ->
  placeholders_scan None (pre ++ rest) = placeholders_scan None rest.
Proof.
  induction pre as [|c pre IH]; simpl; intros Hpre; [reflexivity|].
  apply andb_true_iff in Hpre. destruct Hpre as [Hc Hpre].
  apply andb_true_iff in Hc. destruct Hc as [Hopen _].
  apply negb_true_iff in Hopen. rewrite Hopen. apply IH, Hpre.
Qed.

Lemma placeholders_scan_key (key post : string) :
  allAz key = true ->
  forall seen,
    placeholders_scan (Some seen) (key ++ String "}" post)
    = (seen ++ key)%string :: placeholders_scan None post.
Proof.
  induction key as [|c key IH]; simpl; intros Hkey seen.
  - rewrite string_app_nil_r. reflexivity.
  - apply andb_true_iff in Hkey. destruct Hkey as [Hc Hkey].
    rewrite Hc, IH by exact Hkey. rewrite !string_app_assoc. reflexivity.
Qed.

(** X25. [template] returns the text as it is when there are no props,
    when every name that stands between braces in the text looks up in the
    props, own or inherited, to a missing or falsy value (every placeholder
    is replaced by itself), and when the text has no brace.  The result
    depends on the props only through the lookups of those names, the first
    of which is the name of the first placeholder. *)
Theorem template_identity :
  forall (text : string) (props : string -> option string),
    template text None = text
    /\ ((forall key, In key (placeholders text) -> props key = None) ->
        template text (Some props) = text)
    /\ (noBrace text = true ->
        placeholders text = [] /\ template text (Some props) = text)
    /\ (forall props' : string -> option string,
          (forall key, In key (placeholders text) -> props key = props' key) ->
          template text (Some props) = template text (Some props'))
    /\ (forall pre key post : string,
          noBrace pre = true -> allAz key = true ->
          text = (pre ++ String "{" (key ++ String "}" post))%string ->
          placeholders text = key :: placeholders post).
Proof.
  intros text props. split; [reflexivity|].
  assert (Hagree : forall props' : string -> option string,
            (forall key, In key (placeholders text) -> props key = props' key) ->
            template text (Some props) = template text (Some props')).
  { intros props' Hsame. apply (template_scan_agree props props' text None Hsame). }
  assert (Hplain : noBrace text = true -> placeholders text = []).
  { intros H. unfold placeholders. rewrite <- (string_app_nil_r text).
    rewrite placeholders_scan_plain by exact H. reflexivity. }
  assert (Hnone : (forall key, In key (placeholders text) -> props key = None) ->
                  template text (Some props) = text).
  { intros H. rewrite (Hagree (fun _ => None) H).
    apply (template_scan_identity (fun _ => None) text (fun _ => eq_refl) None). }
  split; [exact Hnone|]. split; [|split; [exact Hagree|]].
  - intros H. split; [exact (Hplain H)|].
    apply Hnone. rewrite (Hplain H). intros key [].
  - intros pre key post Hpre Hkey ->. unfold placeholders.
    rewrite placeholders_scan_plain by exact Hpre. simpl.
    apply (placeholders_scan_key key post Hkey EmptyString).
Qed.

Local Open Scope string_scope.

(** X25 on the text of a results counter, with props that hold a title
    and inherit [constructor]: [{total}] stays, [{constructor}] does not. *)
Lemma template_identity_witness :
  placeholders "Showing {total} results" = ["total"]
  /\ titleProps "total" = None
  /\ template "Showing {total} results" (Some titleProps) = "Showing {total} results"
  /\ template "{constructor}" (Some titleProps) = "function Object() { [native code] }".
Proof.
  split; [reflexivity|]. split; [reflexivity|]. split; [|reflexivity].
  apply (proj1 (proj2 (template_identity "Showing {total} results" titleProps))).
  intros key [<-|[]]. reflexivity.
Defined.

Local Close Scope string_scope.

(** X26. A placeholder [{key}] that follows text without braces is
    replaced by [props[key]] when the name is made of characters from [A] to
    [z] and [props[key]] is truthy, and stays as it is when [props[key]] is
    missing or falsy; a placeholder whose name has another character, such
    as the digit of [{0}], is never replaced, whatever the props hold.  The
    rest of the text is treated in the same way. *)
Theorem template_placeholder :
  forall (props : string -> option string) (pre key post : string),
    noBrace pre = true ->
    noBrace key = true ->
    let text := (pre ++ String "{" (key ++ String "}" post))%string in
    (allAz key = true ->
     forall v, props key = Some v ->
       template text (Some props) = (pre ++ v ++ template post (Some props))%string)
    /\ (allAz key = false \/ props key = None ->
        template text (Some props)
        = (pre ++ String "{" (key ++ String "}" (template post (Some props))))%string).
Proof.
  intros props pre key post Hpre Hkey text. unfold text, template.
  rewrite template_scan_plain by exact Hpre. simpl.
  split.
  - intros Haz v Hv. rewrite (template_scan_key props key post Haz EmptyString).
    simpl. unfold replacer. rewrite Hv. reflexivity.
  - intros Hcase. destruct (allAz key) eqn:Haz.
    + destruct Hcase as [H|Hnone]; [discriminate|].
      rewrite (template_scan_key props key post Haz EmptyString).
      simpl. unfold replacer. rewrite Hnone. simpl.
      rewrite ?string_app_assoc. reflexivity.
    + rewrite (template_scan_other props key post Hkey Haz EmptyString).
      simpl. rewrite ?string_app_assoc. reflexivity.
Qed.

Local Open Scope string_scope.

(** X26 on the text of a results counter. *)
Lemma template_placeholder_witness :
  noBrace "Showing " = true /\ noBrace "total" = true
  /\ template "Showing {total} results"
       (Some (fun key => if String.eqb key "total" then Some "25" else None))
     = "Showing 25 results".
Proof.
  split; [reflexivity|]. split; [reflexivity|].
  exact (proj1 (template_placeholder
                  (fun key => if String.eqb key "total" then Some "25" else None)
                  "Showing " "total" " results" eq_refl eq_refl)
               eq_refl "25" eq_refl).
Defined.

Local Close Scope string_scope.

(** *** Sorting *)

Section Sorting.

Context {A : Type}.
Variable keyFunc : A -> Z.

Local Abbreviation byKey := (fun a b : A => keyFunc a <= keyFunc b).
Local Abbreviation compareKeys :=
  (fun a b : A =>
     if keyFunc a <? keyFunc b then -1
     else if keyFunc b <? keyFunc a then 1
     else 0).

Lemma compareKeys_gt (x y : A) :
  (0 <? compareKeys x y) = (keyFunc y <? keyFunc x).
Proof.
  cbv beta.
  destruct (Z.ltb_spec (keyFunc x) (keyFunc y));
    destruct (Z.ltb_spec (keyFunc y) (keyFunc x)); simpl; try reflexivity; lia.
Qed.

Lemma sort_insert_perm (x : A) (l : list A) :
  Permutation (sort_insert compareKeys x l) (x :: l).
Proof.
  induction l as [|y l IH]; simpl; [apply Permutation_refl|].
  rewrite compareKeys_gt. destruct (keyFunc y <? keyFunc x).
  - eapply perm_trans; [apply perm_skip, IH | apply perm_swap].
  - apply Permutation_refl.
Qed.

Lemma sort_insert_sorted (x : A) (l : list A) :
  StronglySorted byKey l -> StronglySorted byKey (sort_insert compareKeys x l).
Proof.
  induction l as [|y l IH]; simpl; intros Hl.
  - repeat constructor.
  - inversion Hl as [|? ? Hs Hy]; subst. rewrite compareKeys_gt.
    destruct (Z.ltb_spec (keyFunc y) (keyFunc x)) as [Hlt|Hge].
    + constructor; [apply IH, Hs|].
      apply Forall_forall. intros z Hz.
      apply (Permutation_in _ (sort_insert_perm x l)) in Hz.
      destruct Hz as [<-|Hz]; [lia|].
      rewrite Forall_forall in Hy. apply Hy, Hz.
    + constructor; [exact Hl|]. constructor; [exact Hge|].
      eapply Forall_impl; [|exact Hy]. simpl. intros z Hz. lia.
Qed.

Lemma sort_insert_withKey (x : A) (l : list A) (k : Z) :
  withKey keyFunc k (sort_insert compareKeys x l) = withKey keyFunc k (x :: l).
Proof.
  unfold withKey. induction l as [|y l IH]; simpl; [reflexivity|].
  rewrite compareKeys_gt.
  destruct (Z.ltb_spec (keyFunc y) (keyFunc x)) as [Hlt|Hge]; [|reflexivity].
  simpl. rewrite IH. simpl.
  destruct (Z.eqb_spec (keyFunc y) k) as [Hy|Hy];
    destruct (Z.eqb_spec (keyFunc x) k) as [Hx|Hx]; try reflexivity; lia.
Qed.

Lemma sortByKey_facts (l : list A) :
  StronglySorted byKey (sortByKey l keyFunc)
  /\ Permutation (sortByKey l keyFunc) l
  /\ forall k, withKey keyFunc k (sortByKey l keyFunc) = withKey keyFunc k l.
Proof.
  unfold sortByKey, Array_sort. induction l as [|x l (Hs & Hp & Hk)]; simpl.
  - split; [constructor|]. split; [apply perm_nil | reflexivity].
  - split; [apply sort_insert_sorted, Hs|]. split.
    + eapply perm_trans; [apply sort_insert_perm | apply perm_skip, Hp].
    + intros k. rewrite sort_insert_withKey. unfold withKey in *. simpl.
      rewrite Hk. reflexivity.
Qed.

Lemma withKey_In (k : Z) (l : list A) (x : A) :
  In x (withKey keyFunc k l) <-> In x l /\ keyFunc x = k.
Proof. unfold withKey. rewrite filter_In, Z.eqb_eq. reflexivity. Qed.

Lemma stable_sorted_unique (r1 : list A) :
  forall r2,
    StronglySorted byKey r1 -> StronglySorted byKey r2 ->
    (forall k, withKey keyFunc k r1 = withKey keyFunc k r2) ->
    r1 = r2.
Proof.
  induction r1 as [|x r1 IH]; intros r2 H1 H2 Hk.
  - destruct r2 as [|y r2]; [reflexivity|].
    specialize (Hk (keyFunc y)). unfold withKey in Hk. simpl in Hk.
    rewrite Z.eqb_refl in Hk. discriminate Hk.
  - destruct r2 as [|y r2].
    + specialize (Hk (keyFunc x)). unfold withKey in Hk. simpl in Hk.
      rewrite Z.eqb_refl in Hk. discriminate Hk.
    + inversion H1 as [|? ? Hs1 Hx]; subst. inversion H2 as [|? ? Hs2 Hy]; subst.
      rewrite Forall_forall in Hx, Hy.
      assert (Hle1 : keyFunc x <= keyFunc y).
      { assert (Hin : In y (withKey keyFunc (keyFunc y) (x :: r1))).
        { rewrite Hk. apply withKey_In. split; [left|]; reflexivity. }
        apply withKey_In in Hin. destruct Hin as [[->|Hin] _]; [lia|].
        apply Hx, Hin. }
      assert (Hle2 : keyFunc y <= keyFunc x).
      { assert (Hin : In x (withKey keyFunc (keyFunc x) (y :: r2))).
        { rewrite <- Hk. apply withKey_In. split; [left|]; reflexivity. }
        apply withKey_In in Hin. destruct Hin as [[->|Hin] _]; [lia|].
        apply Hy, Hin. }
      assert (Hxy : x = y).
      { pose proof (Hk (keyFunc x)) as H. unfold withKey in H. simpl in H.
        rewrite Z.eqb_refl in H.
        assert (Heq : (keyFunc y =? keyFunc x) = true) by (apply Z.eqb_eq; lia).
        rewrite Heq in H. injection H as H _. exact H. }
      subst y. f_equal. apply IH; [exact Hs1 | exact Hs2|].
      intros k. specialize (Hk k). unfold withKey in *. simpl in Hk.
      destruct (keyFunc x =? k); [injection Hk as Hk|]; exact Hk.
Qed.

(** X27. [sortByKey] returns the items of the list (the same items, as
    many times each) in ascending order of their keys, and items with equal
    keys keep the order they had in the list. *)
Theorem sortByKey_sorted :
  forall l : list A,
    StronglySorted (fun a b => keyFunc a <= keyFunc b) (sortByKey l keyFunc)
    /\ Permutation (sortByKey l keyFunc) l
    /\ (forall k, withKey keyFunc k (sortByKey l keyFunc) = withKey keyFunc k l).
Proof. exact sortByKey_facts. Qed.

(** X28. The result of [sortByKey] is the only arrangement that is in
    ascending order of the keys and keeps items of equal keys in the order
    of the list: any list with these two properties is the list [sortByKey]
    returns.  In particular sorting a list that is already in order, or
    sorting twice, changes nothing. *)
Theorem sortByKey_unique :
  forall l r : list A,
    (StronglySorted (fun a b => keyFunc a <= keyFunc b) r
     /\ (forall k, withKey keyFunc k r = withKey keyFunc k l)
     -> r = sortByKey l keyFunc)
    /\ (StronglySorted (fun a b => keyFunc a <= keyFunc b) l -> sortByKey l keyFunc = l)
    /\ sortByKey (sortByKey l keyFunc) keyFunc = sortByKey l keyFunc.
Proof.
  intros l r.
  assert (Huniq : forall l0 r0 : list A,
             StronglySorted byKey r0 ->
             (forall k, withKey keyFunc k r0 = withKey keyFunc k l0) ->
             r0 = sortByKey l0 keyFunc).
  { intros l0 r0 Hs Hk. destruct (sortByKey_facts l0) as (Hs' & _ & Hk').
    apply stable_sorted_unique; [exact Hs | exact Hs'|].
    intros k. rewrite Hk, Hk'. reflexivity. }
  split; [intros [Hs Hk]; apply Huniq; assumption|]. split.
  - intros Hs. symmetry. apply Huniq; [exact Hs | reflexivity].
  - symmetry. destruct (sortByKey_facts l) as (Hs & _ & Hk).
    apply Huniq; [exact Hs | reflexivity].
Qed.

End Sorting.

(** *** Merging objects *)

(** Induction on a value, with the hypothesis for the elements of an array
    and the values of an object. *)
Lemma jv_induction (P : jv -> Prop) :
  P VUndefined -> P VNull -> (forall b, P (VBool b)) -> (forall n, P (VNum n)) ->
  (forall s, P (VStr s)) ->
  (forall elems, Forall P elems -> P (VArr elems)) ->
  (forall props, Forall (fun kv => P (snd kv)) props -> P (VObj props)) ->
  forall v, P v.
Proof.
  intros Hu Hn Hb Hnum Hs Harr Hobj. fix IH 1.
  intros [| |b|n|s|elems|props].
  - exact Hu.
  - exact Hn.
  - apply Hb.
  - apply Hnum.
  - apply Hs.
  - apply Harr. induction elems as [|x elems IHl]; constructor; [apply IH | exact IHl].
  - apply Hobj. induction props as [|[k x] props IHl]; constructor; [apply IH | exact IHl].
Qed.

Section MergeFacts.

Variable merge : list (string * jv) -> jv -> option (list (string * jv)).

Lemma mergeKey_other target key value target' k :
  mergeKey merge target key value = Some target' -> k <> key ->
  obj_get target' k = obj_get target k.
Proof.
  unfold mergeKey. intros H Hne.
  assert (Hset : forall x, obj_get (obj_set target key x) k = obj_get target k)
    by (intros x; apply obj_get_set_other, Hne).
  assert (Hmap : forall o, option_map (fun merged => obj_set target key (VObj merged)) o
                           = Some target' -> obj_get target' k = obj_get target k).
  { intros [m|]; simpl; [|discriminate]. intros E. injection E as <-. apply Hset. }
  destruct (isObject value).
  - destruct (obj_get target key) as [held|].
    + destruct (negb (truthy_jv held)); [apply (Hmap _ H)|].
      destruct held; try (injection H as <-; reflexivity).
      destruct (isObject (VObj props)); [apply (Hmap _ H) | injection H as <-; reflexivity].
    + destruct (String.eqb key "__proto__"); [discriminate|].
      destruct (isInheritedFunction key); [injection H as <-; reflexivity | apply (Hmap _ H)].
  - destruct value; try (injection H as <-; reflexivity);
      (destruct (reachesProto target key); [discriminate|]; injection H as <-; apply Hset).
Qed.

Lemma forEachKey_other entries :
  forall target r k,
    forEachKey merge entries target = Some r -> ~ In k (map fst entries) ->
    obj_get r k = obj_get target k.
Proof.
  induction entries as [|[key value] rest IH]; intros target r k H Hk; simpl in H.
  - injection H as <-. reflexivity.
  - destruct (mergeKey merge target key value) as [target'|] eqn:Hstep; [|discriminate].
    rewrite (IH target' r k H) by (intros Hin; apply Hk; right; exact Hin).
    apply (mergeKey_other _ _ _ _ _ Hstep). intros ->. apply Hk. left. reflexivity.
Qed.

(** The key [k] of the source is merged into what the target held under
    [k] at the start, and nothing changes it afterwards. *)
Lemma forEachKey_key entries :
  forall target r k v,
    NoDup (map fst entries) -> obj_get entries k = Some v ->
    forEachKey merge entries target = Some r ->
    exists before after,
      obj_get before k = obj_get target k
      /\ mergeKey merge before k v = Some after
      /\ obj_get r k = obj_get after k.
Proof.
  induction entries as [|[key value] rest IH]; intros target r k v Hnd Hget H;
    simpl in Hget, H; [discriminate|].
  inversion Hnd as [|? ? Hkey Hrest]; subst.
  destruct (mergeKey merge target key value) as [target'|] eqn:Hstep; [|discriminate].
  destruct (String.eqb_spec key k) as [->|Hne].
  - injection Hget as ->. exists target, target'. split; [reflexivity|].
    split; [exact Hstep|]. apply (forEachKey_other rest target' r k H Hkey).
  - destruct (IH target' r k v Hrest Hget H) as (before & after & Hb & Hm & Hr).
    exists before, after. split; [|split; assumption].
    rewrite Hb. apply (mergeKey_other _ _ _ _ _ Hstep). intros ->. apply Hne. reflexivity.
Qed.

End MergeFacts.

Lemma mergeDeep_one tp sp r :
  isObject (VObj tp) = true -> isObject (VObj sp) = true ->
  mergeDeep (VObj tp) [VObj sp] = Some r ->
  exists rp, r = VObj rp
             /\ forEachKey (fun heldProps value => mergeObjects heldProps value) sp tp
                = Some rp.
Proof.
  intros Ht Hs H. cbn [mergeDeep] in H. rewrite Ht, Hs in H. cbn [andb mergeObjects] in H.
  destruct (forEachKey (fun heldProps value => mergeObjects heldProps value) sp tp)
    as [rp|]; [|discriminate].
  simpl in H. injection H as <-. exists rp. split; reflexivity.
Qed.

Lemma mergeDeep_nested hp v m :
  isObject (VObj hp) = true -> isObject v = true ->
  mergeObjects hp v = Some m -> mergeDeep (VObj hp) [v] = Some (VObj m).
Proof.
  intros Hh Hv Hm. cbn [mergeDeep]. rewrite Hh, Hv. cbn [andb]. rewrite Hm. reflexivity.
Qed.

(** X29. What [mergeDeep(target, source)] leaves under each key, for plain
    objects and a merge that returns.  A key the source lacks, or holds
    [undefined] under, keeps the value of the target.  A value of the source
    that is not a plain object (a number, a string, [null], an array)
    replaces the value of the target.  A plain object of the source is
    merged into the plain object the target holds under the key; it is
    merged into a new empty object when the target holds nothing or a falsy
    value there; and it is dropped, the target keeping its value, when the
    target holds a truthy value that is not a plain object. *)
Theorem mergeDeep_lookup :
  forall (tp sp : list (string * jv)) (r : jv),
    isObject (VObj tp) = true -> isObject (VObj sp) = true ->
    NoDup (map fst sp) ->
    mergeDeep (VObj tp) [VObj sp] = Some r ->
    exists rp, r = VObj rp /\ forall k,
      (obj_get sp k = None \/ obj_get sp k = Some VUndefined ->
       obj_get rp k = obj_get tp k)
      /\ (forall v, obj_get sp k = Some v -> isObject v = false -> v <> VUndefined ->
            obj_get rp k = Some v)
      /\ (forall v hp, obj_get sp k = Some v -> isObject v = true ->
            obj_get tp k = Some (VObj hp) -> isObject (VObj hp) = true ->
            exists m, mergeDeep (VObj hp) [v] = Some (VObj m)
                      /\ obj_get rp k = Some (VObj m))
      /\ (forall v, obj_get sp k = Some v -> isObject v = true ->
            (obj_get tp k = None /\ isInheritedFunction k = false)
            \/ (exists h, obj_get tp k = Some h /\ truthy_jv h = false) ->
            exists m, mergeDeep (VObj []) [v] = Some (VObj m)
                      /\ obj_get rp k = Some (VObj m))
      /\ (forall v h, obj_get sp k = Some v -> isObject v = true ->
            obj_get tp k = Some h -> truthy_jv h = true -> isObject h = false ->
            obj_get rp k = Some h).
Proof.
  intros tp sp r Ht Hs Hnd Hmerge.
  destruct (mergeDeep_one tp sp r Ht Hs Hmerge) as (rp & -> & Hrp).
  exists rp. split; [reflexivity|]. intros k.
  set (merge := fun heldProps value => mergeObjects heldProps value) in *.
  assert (Hkey : forall v, obj_get sp k = Some v ->
            exists before after,
              obj_get before k = obj_get tp k
              /\ mergeKey merge before k v = Some after
              /\ obj_get rp k = obj_get after k).
  { intros v Hv. apply (forEachKey_key merge sp tp rp k v Hnd Hv Hrp). }
  split; [|split; [|split; [|split]]].
  - intros [Hnone|Hundef].
    + apply (forEachKey_other merge sp tp rp k Hrp). apply obj_get_In, Hnone.
    + destruct (Hkey _ Hundef) as (before & after & Hb & Hm & Hr).
      unfold mergeKey in Hm. simpl in Hm. injection Hm as <-. rewrite Hr. exact Hb.
  - intros v Hv Hobj Hdef.
    destruct (Hkey _ Hv) as (before & after & Hb & Hm & Hr).
    unfold mergeKey in Hm. rewrite Hobj in Hm.
    destruct v; try (contradiction Hdef; reflexivity);
      (destruct (reachesProto before k); [discriminate|];
       injection Hm as <-; rewrite Hr; apply obj_get_set_same).
  - intros v hp Hv Hobj Hheld Hplain.
    destruct (Hkey _ Hv) as (before & after & Hb & Hm & Hr).
    unfold mergeKey in Hm. rewrite Hobj, Hb, Hheld in Hm.
    cbn [truthy_jv negb] in Hm. rewrite Hplain in Hm.
    destruct (merge hp v) as [m|] eqn:Hmv; [|discriminate].
    simpl in Hm. injection Hm as <-. exists m. split.
    + apply mergeDeep_nested; assumption.
    + rewrite Hr. apply obj_get_set_same.
  - intros v Hv Hobj Hcase.
    destruct (Hkey _ Hv) as (before & after & Hb & Hm & Hr).
    unfold mergeKey in Hm. rewrite Hobj, Hb in Hm.
    assert (Hnew : option_map (fun merged => obj_set before k (VObj merged)) (merge [] v)
                   = Some after).
    { destruct Hcase as [[Hnone Hfn]|[h [Hh Hfalsy]]].
      - rewrite Hnone, Hfn in Hm.
        destruct (String.eqb k "__proto__"); [discriminate | exact Hm].
      - rewrite Hh, Hfalsy in Hm. exact Hm. }
    destruct (merge [] v) as [m|] eqn:Hmv; [|discriminate].
    simpl in Hnew. injection Hnew as <-. exists m. split.
    + apply mergeDeep_nested; [reflexivity | exact Hobj | exact Hmv].
    + rewrite Hr. apply obj_get_set_same.
  - intros v h Hv Hobj Hheld Htruthy Hnot.
    destruct (Hkey _ Hv) as (before & after & Hb & Hm & Hr).
    unfold mergeKey in Hm. rewrite Hobj, Hb, Hheld, Htruthy in Hm. cbn [negb] in Hm.
    rewrite Hr, <- Hheld, <- Hb.
    destruct h; try (injection Hm as <-; reflexivity).
    rewrite Hnot in Hm. injection Hm as <-. reflexivity.
Qed.

Local Open Scope string_scope.

(** X29 on a default configuration and an authored one. *)
Lemma mergeDeep_lookup_witness :
  isObject (VObj [("sort", VStr "date"); ("pagination", VObj [("limit", VNum (Fin 8))])])
  = true
  /\ isObject (VObj [("pagination", VObj [("type", VStr "paginator")])]) = true
  /\ NoDup (map fst [("pagination", VObj [("type", VStr "paginator")])])
  /\ mergeDeep
       (VObj [("sort", VStr "date"); ("pagination", VObj [("limit", VNum (Fin 8))])])
       [VObj [("pagination", VObj [("type", VStr "paginator")])]]
     = Some (VObj [("sort", VStr "date");
                   ("pagination", VObj [("limit", VNum (Fin 8));
                                        ("type", VStr "paginator")])])
  /\ exists rp,
       VObj [("sort", VStr "date");
             ("pagination", VObj [("limit", VNum (Fin 8)); ("type", VStr "paginator")])]
       = VObj rp
       /\ obj_get rp "sort" = Some (VStr "date").
Proof.
  assert (H1 : isObject (VObj [("sort", VStr "date");
                               ("pagination", VObj [("limit", VNum (Fin 8))])]) = true)
    by reflexivity.
  assert (H2 : isObject (VObj [("pagination", VObj [("type", VStr "paginator")])]) = true)
    by reflexivity.
  assert (H3 : NoDup (map fst [("pagination", VObj [("type", VStr "paginator")])])).
  { simpl. constructor; [intros []|constructor]. }
  assert (H4 : mergeDeep
                 (VObj [("sort", VStr "date");
                        ("pagination", VObj [("limit", VNum (Fin 8))])])
                 [VObj [("pagination", VObj [("type", VStr "paginator")])]]
               = Some (VObj [("sort", VStr "date");
                             ("pagination", VObj [("limit", VNum (Fin 8));
                                                  ("type", VStr "paginator")])]))
    by reflexivity.
  split; [exact H1|]. split; [exact H2|]. split; [exact H3|]. split; [exact H4|].
  destruct (mergeDeep_lookup _ _ _ H1 H2 H3 H4) as (rp & Hrp & Hk).
  exists rp. split; [exact Hrp|].
  rewrite (proj1 (Hk "sort") (or_introl eq_refl)). reflexivity.
Defined.

Local Close Scope string_scope.

Lemma mergeKey_total merge target key value :
  key <> "__proto__"%string ->
  (forall t, exists r, merge t value = Some r) ->
  exists target', mergeKey merge target key value = Some target'.
Proof.
  intros Hkey Hmerge. unfold mergeKey.
  assert (Hreach : reachesProto target key = false).
  { unfold reachesProto. apply String.eqb_neq in Hkey. rewrite Hkey. reflexivity. }
  assert (Hmap : forall t, exists target',
             option_map (fun merged => obj_set target key (VObj merged)) (merge t value)
             = Some target').
  { intros t. destruct (Hmerge t) as [r ->]. eexists. reflexivity. }
  destruct (isObject value).
  - destruct (obj_get target key) as [held|].
    + destruct (negb (truthy_jv held)); [apply Hmap|].
      destruct held; try (eexists; reflexivity).
      destruct (isObject (VObj props)); [apply Hmap | eexists; reflexivity].
    + apply String.eqb_neq in Hkey. rewrite Hkey.
      destruct (isInheritedFunction key); [eexists; reflexivity | apply Hmap].
  - destruct value; rewrite ?Hreach; eexists; reflexivity.
Qed.

Lemma forEachKey_total merge entries :
  Forall (fun kv => fst kv <> "__proto__"%string
                    /\ forall t, exists r, merge t (snd kv) = Some r) entries ->
  forall target, exists r, forEachKey merge entries target = Some r.
Proof.
  induction 1 as [|[key value] rest [Hkey Hmerge] _ IH]; intros target; simpl.
  - eexists. reflexivity.
  - destruct (mergeKey_total merge target key value Hkey Hmerge) as [target' ->].
    apply IH.
Qed.

Lemma protoFree_props props :
  protoFree (VObj props) = true ->
  ~ In "__proto__"%string (map fst props)
  /\ Forall (fun kv => protoFree (snd kv) = true) props.
Proof.
  simpl. intros H. apply andb_true_iff in H. destruct H as [Hkey Hall].
  apply negb_true_iff in Hkey. split.
  - apply obj_get_In. unfold obj_has in Hkey.
    destruct (obj_get props "__proto__"); [discriminate | reflexivity].
  - clear Hkey. induction props as [|[k x] props IH]; constructor.
    + apply andb_true_iff in Hall. apply Hall.
    + apply IH. apply andb_true_iff in Hall. apply Hall.
Qed.

Lemma mergeObjects_total (source : jv) :
  protoFree source = true ->
  forall target, exists r, mergeObjects target source = Some r.
Proof.
  induction source as [| |b|n|s|elems _|props IH] using jv_induction;
    intros Hfree target; try (eexists; reflexivity).
  cbn [mergeObjects]. apply forEachKey_total.
  destruct (protoFree_props props Hfree) as [Hkeys Hvals].
  rewrite Forall_forall in *. intros [k x] Hin. cbn [fst snd]. split.
  - intros ->. apply Hkeys. apply (in_map fst _ _ Hin).
  - apply (IH (k, x) Hin). apply (Hvals (k, x) Hin).
Qed.

(** X30. [mergeDeep] merges its sources one after the other, from left to
    right: merging a list of sources is merging its first part and then the
    rest into the result.  Without sources, and for a target or a source
    that is not a plain object, the target comes back as it is.  When no
    object inside the sources has an own property named [__proto__], the
    merge stays within the objects it was given and returns. *)
Theorem mergeDeep_sources :
  forall (target : jv) (sources more : list jv),
    mergeDeep target [] = Some target
    /\ (forall source, isObject target = false \/ isObject source = false ->
          mergeDeep target [source] = Some target)
    /\ mergeDeep target (sources ++ more)
       = match mergeDeep target sources with
         | Some merged => mergeDeep merged more
         | None => None
         end
    /\ (forallb protoFree sources = true ->
        exists r, mergeDeep target sources = Some r).
Proof.
  intros target sources more. split; [reflexivity|]. split; [|split].
  - intros source Hcase. cbn [mergeDeep].
    destruct target; try reflexivity.
    destruct Hcase as [H|H]; rewrite H; rewrite ?andb_false_r; reflexivity.
  - revert target. induction sources as [|source rest IH]; intros target; [reflexivity|].
    cbn [app mergeDeep].
    destruct (match target with
              | VObj targetProps =>
                  if isObject target && isObject source
                  then option_map VObj (mergeObjects targetProps source)
                  else Some target
              | _ => Some target
              end) as [target'|]; [apply IH | reflexivity].
  - revert target. induction sources as [|source rest IH]; intros target Hfree.
    + eexists. reflexivity.
    + cbn [forallb] in Hfree. apply andb_true_iff in Hfree. destruct Hfree as [Hs Hrest].
      cbn [mergeDeep].
      destruct target; try apply (IH _ Hrest).
      destruct (isObject (VObj props) && isObject source); [|apply (IH _ Hrest)].
      destruct (mergeObjects_total source Hs props) as [r ->]. simpl.
      apply (IH _ Hrest).
Qed.
